(** * Modbus configuration validators

    A shallow embedding of [homeassistant/components/modbus/validators.py]
    and the properties its specification states about it.

    Python values are modelled as the code uses them: integers as [Z],
    strings as [string], a character standing for a code point below 256,
    an optional dictionary key as [option],
    Python sets as stdpp's [gset], ordered dictionaries and lists as
    [list]. Exceptions are explicit: every fallible function returns a
    [result]. A dictionary or list that the code updates in place is
    returned updated. The warnings that the hub resolver logs are part of
    its result; the other calls of [_LOGGER.warning] change no value and
    are left out. *)

From Stdlib Require Import ZArith Ascii DecimalString DecimalZ.
From stdpp Require Import gmap strings list.

Open Scope string_scope.
Open Scope list_scope.
Open Scope Z_scope.

(** ** Constants imported from [const.py] / [homeassistant.const]

    The validators import these names; their values are not part of the
    validated file, so the development is parametric in them. *)

Class Const := {
  CONF_SWAP_BYTE : string;
  CONF_SWAP_WORD : string;
  CONF_SWAP_WORD_BYTE : string;
  DEFAULT_SCAN_INTERVAL : Z;
  (** pairs [(component, conf_key)] *)
  PLATFORMS : list (string * string);
  SERIAL : string;
  DEFAULT_HUB : string
}.

(** ** Python helpers *)

(** [str(z)] for a Python [int]. *)
Definition str_int (z : Z) : string := NilEmpty.string_of_int (Z.to_int z).

(** Truthiness of an optional string: [None] and the empty string are
    falsy. An integer is truthy when it is not [0]. *)
Definition truthy_str (o : option string) : bool :=
  match o with
  | Some s => negb (String.eqb s "")
  | None => false
  end.

(** ** Exceptions *)

(** Messages of [struct.error], as raised by [struct.calcsize]. *)
Inductive struct_error :=
| Bad_char                (* "bad char in struct format" *)
| Repeat_without_format   (* "repeat count given without format specifier" *)
| Size_too_long           (* "total struct size too long" *)
| Embedded_null.          (* "embedded null character" *)

(** Modelled from the spec: the enumeration [DataType] of [const.py]; its
    members are the keys of [DEFAULT_STRUCT_FORMAT]. *)
Inductive DataType :=
| INT16 | UINT16 | FLOAT16
| INT32 | UINT32 | FLOAT32
| INT64 | UINT64 | FLOAT64
| STRING | CUSTOM.

#[global] Instance DataType_eq_dec : EqDecision DataType.
Proof. solve_decision. Defined.

(** The three entries of the parameter loop; the third one is printed as
    [f"{CONF_VIRTUAL_COUNT} / {CONF_SLAVE_COUNT}"]. *)
Inductive parm := Parm_count | Parm_structure | Parm_slave_count.

(** The texts given to [vol.Invalid]: one constructor per raise site,
    carrying the values interpolated into its f-string (the two
    ["invalid number"] sites share one constructor). *)
Inductive message :=
| Missing_demanded (name : string) (p : parm) (dt : DataType)
| Illegal_with (name : string) (p : parm) (dt : DataType)
| Swap_illegal (name swap_type : string) (dt : DataType)
| Structure_format (name : string) (err : struct_error)
| Structure_size (name : string) (size count bytecount : Z)
| Invalid_number.

Inductive exn :=
| Invalid (m : message)       (* vol.Invalid *)
| KeyError (key : string)     (* a dictionary subscript that is absent *)
| TypeError
| ValueError
| UnicodeEncodeError          (* a subclass of ValueError *)
| OverflowError.

Inductive result (A : Type) :=
| Ok (a : A)
| Raise (e : exn).
Arguments Ok {A} a.
Arguments Raise {A} e.

#[global] Instance result_ret : MRet result := fun A a => Ok a.

#[global] Instance result_bind : MBind result := fun A B k r =>
  match r with
  | Ok a => k a
  | Raise e => Raise e
  end.

#[global] Instance result_fmap : FMap result := fun A B f r =>
  match r with
  | Ok a => Ok (f a)
  | Raise e => Raise e
  end.

(** ** Type layout table *)

Inductive legality := ILLEGAL | OPTIONAL | DEMANDED.

Definition legality_eqb (a b : legality) : bool :=
  match a, b with
  | ILLEGAL, ILLEGAL | OPTIONAL, OPTIONAL | DEMANDED, DEMANDED => true
  | _, _ => false
  end.

Record PARM_IS_LEGAL := {
  count : legality;
  structure : legality;
  slave_count : legality;
  swap_byte : legality;
  swap_word : legality
}.

Record ENTRY := {
  struct_id : string;
  register_count : Z;
  validate_parm : PARM_IS_LEGAL
}.

Definition DEFAULT_STRUCT_FORMAT (dt : DataType) : ENTRY :=
  match dt with
  | INT16 => Build_ENTRY "h" 1 (Build_PARM_IS_LEGAL ILLEGAL ILLEGAL OPTIONAL OPTIONAL ILLEGAL)
  | UINT16 => Build_ENTRY "H" 1 (Build_PARM_IS_LEGAL ILLEGAL ILLEGAL OPTIONAL OPTIONAL ILLEGAL)
  | FLOAT16 => Build_ENTRY "e" 1 (Build_PARM_IS_LEGAL ILLEGAL ILLEGAL OPTIONAL OPTIONAL ILLEGAL)
  | INT32 => Build_ENTRY "i" 2 (Build_PARM_IS_LEGAL ILLEGAL ILLEGAL OPTIONAL OPTIONAL OPTIONAL)
  | UINT32 => Build_ENTRY "I" 2 (Build_PARM_IS_LEGAL ILLEGAL ILLEGAL OPTIONAL OPTIONAL OPTIONAL)
  | FLOAT32 => Build_ENTRY "f" 2 (Build_PARM_IS_LEGAL ILLEGAL ILLEGAL OPTIONAL OPTIONAL OPTIONAL)
  | INT64 => Build_ENTRY "q" 4 (Build_PARM_IS_LEGAL ILLEGAL ILLEGAL OPTIONAL OPTIONAL OPTIONAL)
  | UINT64 => Build_ENTRY "Q" 4 (Build_PARM_IS_LEGAL ILLEGAL ILLEGAL OPTIONAL OPTIONAL OPTIONAL)
  | FLOAT64 => Build_ENTRY "d" 4 (Build_PARM_IS_LEGAL ILLEGAL ILLEGAL OPTIONAL OPTIONAL OPTIONAL)
  | STRING => Build_ENTRY "s" 0 (Build_PARM_IS_LEGAL DEMANDED ILLEGAL ILLEGAL OPTIONAL ILLEGAL)
  | CUSTOM => Build_ENTRY "?" 0 (Build_PARM_IS_LEGAL DEMANDED DEMANDED ILLEGAL ILLEGAL ILLEGAL)
  end.

(** ** [struct.calcsize]

    A model of CPython's [struct.calcsize] on a string, following
    [Modules/_struct.c]: the format is encoded to ASCII first, which raises
    UnicodeEncodeError on a character from 128 on; then, in [prepare_s], a
    format with a NUL character is refused, an optional first character
    selects byte order, size and alignment, and each item is optional
    white space, an optional decimal repeat count and a format character.
    With one of the prefixes
    [<], [>], [!], [=] sizes are the standard ones and nothing is aligned;
    with [@] or no prefix the sizes and alignments are those of the C
    compiler, taken here for an LP64 platform. [PY_SSIZE_T_MAX] is
    [2^63 - 1]. *)
Module Struct.

Inductive outcome :=
| Size (n : Z)
| Error (e : struct_error)    (* struct.error *)
| Encode_error.               (* UnicodeEncodeError *)

Definition PY_SSIZE_T_MAX : Z := 2 ^ 63 - 1.

Definition is_space (c : ascii) : bool :=
  let n := nat_of_ascii c in
  ((9 <=? n) && (n <=? 13) || (n =? 32))%nat.

Definition digit (c : ascii) : option Z :=
  let n := Z.of_nat (nat_of_ascii c) in
  if (48 <=? n) && (n <=? 57) then Some (n - 48) else None.

(** Size of one item in standard mode ([None]: bad character). *)
Definition standard_size (c : ascii) : option Z :=
  match c with
  | "x" | "b" | "B" | "c" | "s" | "p" | "?" => Some 1
  | "h" | "H" | "e" => Some 2
  | "i" | "I" | "l" | "L" | "f" => Some 4
  | "q" | "Q" | "d" => Some 8
  | _ => None
  end%char.

(** Size of one item in native mode; the alignment equals the size. *)
Definition native_size (c : ascii) : option Z :=
  match c with
  | "x" | "b" | "B" | "c" | "s" | "p" | "?" => Some 1
  | "h" | "H" | "e" => Some 2
  | "i" | "I" | "f" => Some 4
  | "l" | "L" | "q" | "Q" | "n" | "N" | "d" | "P" => Some 8
  | _ => None
  end%char.

(** [align(size, c, e)]: round [size] up to a multiple of the item's
    alignment, in native mode only. *)
Definition align (native : bool) (size itemsize : Z) : Z :=
  if native then ((size + itemsize - 1) / itemsize) * itemsize else size.

(** One item with format character [c] repeated [num] times. *)
Definition add_item (native : bool) (size num : Z) (c : ascii) : outcome :=
  match (if native then native_size c else standard_size c) with
  | None => Error Bad_char
  | Some itemsize =>
      let size := align native size itemsize in
      if PY_SSIZE_T_MAX <? size then Error Size_too_long
      else if (PY_SSIZE_T_MAX - size) / itemsize <? num then Error Size_too_long
      else Size (size + num * itemsize)
  end.

(** A repeat count grows by one digit, with the overflow test of the C
    code. *)
Definition push_digit (num d : Z) : option Z :=
  if (PY_SSIZE_T_MAX / 10 <=? num)
     && ((PY_SSIZE_T_MAX / 10 <? num) || (PY_SSIZE_T_MAX mod 10 <? d))
  then None
  else Some (num * 10 + d).

(** The main loop, one character at a time: [num] is the repeat count
    read so far, if the previous characters were digits. *)
Fixpoint scan (native : bool) (size : Z) (num : option Z) (s : string) : outcome :=
  match s with
  | EmptyString =>
      if num is Some _ then Error Repeat_without_format else Size size
  | String c s' =>
      match num, digit c with
      | None, Some d => scan native size (Some d) s'
      | Some n, Some d =>
          match push_digit n d with
          | Some n' => scan native size (Some n') s'
          | None => Error Size_too_long
          end
      | None, None =>
          if is_space c then scan native size None s'
          else
            match add_item native size 1 c with
            | Size size' => scan native size' None s'
            | o => o
            end
      | Some n, None =>
          match add_item native size n c with
          | Size size' => scan native size' None s'
          | o => o
          end
      end
  end.

Definition has_null (s : string) : bool :=
  existsb (fun c => Ascii.eqb c zero) (String.list_ascii_of_string s).

(** [PyUnicode_AsASCIIString] succeeds. *)
Definition is_ascii (s : string) : bool :=
  forallb (fun c => (nat_of_ascii c <? 128)%nat) (String.list_ascii_of_string s).

Definition calcsize (format : string) : outcome :=
  if negb (is_ascii format) then Encode_error
  else if has_null format then Error Embedded_null
  else
    match format with
    | String c s' =>
        if (Ascii.eqb c "<" || Ascii.eqb c ">" || Ascii.eqb c "!" || Ascii.eqb c "=")%char
        then scan false 0 None s'
        else if Ascii.eqb c "@"
        then scan true 0 None s'
        else scan true 0 None format
    | EmptyString => Size 0
    end.

End Struct.

(** ** Register validator: [struct_validator] *)

(** The value under [CONF_DATA_TYPE]: the legacy alias ["int"] or a member
    of the [DataType] enumeration. *)
Inductive data_type_value :=
| Legacy_int
| Member (dt : DataType).

(** A register declaration: the keys of the configuration dictionary that
    [struct_validator] reads or writes, an absent key being [None]; the
    remaining keys are carried in [conf_other]. *)
Record Config := {
  conf_name : string;
  conf_data_type : data_type_value;
  conf_count : option Z;
  conf_structure : option string;
  conf_slave_count : option Z;
  conf_virtual_count : option Z;
  conf_swap : option string;
  conf_other : gmap string string
}.

Section struct_validator.
Context `{Const}.

(** The loop over the three optional parameters. An entry is
    [(entry[0] is None, entry[1], entry[2])]. *)
Fixpoint check_entries (name : string) (data_type : DataType)
    (entries : list (bool * legality * parm)) : result unit :=
  match entries with
  | [] => Ok ()
  | (is_none, legal, p) :: entries =>
      (if is_none then
         if legality_eqb legal DEMANDED
         then Raise (Invalid (Missing_demanded name p data_type))
         else Ok ()
       else if legality_eqb legal ILLEGAL
         then Raise (Invalid (Illegal_with name p data_type))
         else Ok ());;
      check_entries name data_type entries
  end.

(** The dictionary literal indexed by [swap_type]. *)
Definition swap_type_validators (validator : PARM_IS_LEGAL) : gmap string legality :=
  <[CONF_SWAP_WORD_BYTE := swap_word validator]>
    (<[CONF_SWAP_WORD := swap_word validator]>
      (<[CONF_SWAP_BYTE := swap_byte validator]> ∅)).

Definition check_swap (name : string) (data_type : DataType)
    (validator : PARM_IS_LEGAL) (swap_type : option string) : result unit :=
  match swap_type with
  | Some st =>
      if truthy_str swap_type then
        match swap_type_validators validator !! st with
        | None => Raise (KeyError st)
        | Some swap_type_validator =>
            if legality_eqb swap_type_validator ILLEGAL
            then Raise (Invalid (Swap_illegal name st data_type))
            else Ok ()
        end
      else Ok ()
  | None => Ok ()
  end.

(** The data type after the legacy alias is rewritten. *)
Definition resolve_data_type (v : data_type_value) : DataType :=
  match v with
  | Legacy_int => INT16
  | Member dt => dt
  end.

(** [config.get(CONF_SLAVE_COUNT, config.get(CONF_VIRTUAL_COUNT))] *)
Definition get_slave_count (config : Config) : option Z :=
  match conf_slave_count config with
  | Some n => Some n
  | None => conf_virtual_count config
  end.

(** The loop over the three parameters, with the entries the code gives
    it. *)
Definition parameter_checks (config : Config) : result unit :=
  let name := conf_name config in
  let data_type := resolve_data_type (conf_data_type config) in
  let validator := validate_parm (DEFAULT_STRUCT_FORMAT data_type) in
  check_entries name data_type
    [ (bool_decide (conf_count config = None), count validator, Parm_count);
      (bool_decide (conf_structure config = None), structure validator, Parm_structure);
      (bool_decide (get_slave_count config = None), slave_count validator, Parm_slave_count) ].

(** The parameter loop, then the swap test. *)
Definition legality_checks (config : Config) : result unit :=
  let name := conf_name config in
  let data_type := resolve_data_type (conf_data_type config) in
  let validator := validate_parm (DEFAULT_STRUCT_FORMAT data_type) in
  parameter_checks config;;
  check_swap name data_type validator (conf_swap config).

(** The custom branch: the size of the structure against the count. The
    handler catches [struct.error] only, so the UnicodeEncodeError of a
    structure that is not ASCII goes through. *)
Definition check_custom (name : string) (structure : option string)
    (count : option Z) : result unit :=
  match structure with
  | None => Raise TypeError
  | Some fmt =>
      match Struct.calcsize fmt with
      | Struct.Error err => Raise (Invalid (Structure_format name err))
      | Struct.Encode_error => Raise UnicodeEncodeError
      | Struct.Size size =>
          match count with
          | None => Raise TypeError
          | Some n =>
              let bytecount := n * 2 in
              if negb (bytecount =? size)
              then Raise (Invalid (Structure_size name size n bytecount))
              else Ok ()
          end
      end
  end.

Definition struct_validator (config : Config) : result Config :=
  let name := conf_name config in
  let data_type := resolve_data_type (conf_data_type config) in
  let count := conf_count config in
  let structure := conf_structure config in
  let slave_count := get_slave_count config in
  let swap_type := conf_swap config in
  legality_checks config;;
  match data_type with
  | CUSTOM =>
      check_custom name structure count;;
      Ok {| conf_name := name;
            conf_data_type := Member data_type;
            conf_count := count;
            conf_structure := structure;
            conf_slave_count := conf_slave_count config;
            conf_virtual_count := conf_virtual_count config;
            conf_swap := swap_type;
            conf_other := conf_other config |}
  | _ =>
      let count' :=
        match data_type with
        | STRING => count
        | _ => Some (register_count (DEFAULT_STRUCT_FORMAT data_type))
        end in
      let tag := struct_id (DEFAULT_STRUCT_FORMAT data_type) in
      let structure' :=
        match slave_count with
        | Some n =>
            if negb (n =? 0) then ">" +:+ str_int (n + 1) +:+ tag
            else ">" +:+ tag
        | None => ">" +:+ tag
        end in
      Ok {| conf_name := name;
            conf_data_type := Member data_type;
            conf_count := count';
            conf_structure := Some structure';
            conf_slave_count := conf_slave_count config;
            conf_virtual_count := conf_virtual_count config;
            conf_swap := swap_type;
            conf_other := conf_other config |}
  end.

End struct_validator.


(** ** Numeric coercers: [number_validator], [nan_validator] *)

(** [int(s)] and [int(s, 16)] for a string [s], following
    [PyLong_FromUnicodeObject] and [PyLong_FromString]: the string is
    brought to ASCII, white space is stripped at both ends, one sign is
    allowed, base 16 allows the prefix [0x] or [0X] and one underscore
    after it, and the digits may be separated by single underscores. In a
    base that is no power of two a number of more than [max_str_digits]
    digits is refused with a ValueError, as a string that is no number
    is. *)
Module PyLong.

(** [_PyUnicode_TransformDecimalAndSpaceToASCII]: a character from 127 on
    becomes a space when it is white space, which 133 and 160 are among
    the code points below 256, and [?] otherwise, none of them being a
    decimal digit. The C code ends the string at the first [?]; what
    follows one cannot make the string a number. *)
Definition to_ascii (c : ascii) : ascii :=
  let n := nat_of_ascii c in
  if (n <? 127)%nat then c
  else if ((n =? 133) || (n =? 160))%nat then " "%char
  else "?"%char.

(** [Py_ISSPACE] *)
Definition is_space (c : ascii) : bool :=
  let n := nat_of_ascii c in
  ((9 <=? n) && (n <=? 13) || (n =? 32))%nat.

(** [sys.int_info.default_max_str_digits], the limit of the interpreter
    unless it is configured otherwise. *)
Definition max_str_digits : Z := 4300.

Fixpoint lstrip (l : list ascii) : list ascii :=
  match l with
  | c :: l' => if is_space c then lstrip l' else l
  | [] => []
  end.

Definition strip (l : list ascii) : list ascii :=
  reverse (lstrip (reverse (lstrip l))).

(** [_PyLong_DigitValue] *)
Definition digit_value (c : ascii) : option Z :=
  let n := Z.of_nat (nat_of_ascii c) in
  if (48 <=? n) && (n <=? 57) then Some (n - 48)
  else if (97 <=? n) && (n <=? 122) then Some (n - 87)
  else if (65 <=? n) && (n <=? 90) then Some (n - 55)
  else None.

(** The digits, [acc] being the value read so far and [prev] telling
    whether the previous character was an underscore. *)
Fixpoint digits (base acc : Z) (prev : bool) (l : list ascii) : option Z :=
  match l with
  | [] => if prev then None else Some acc
  | c :: l' =>
      if Ascii.eqb c "_" then
        if prev then None else digits base acc true l'
      else
        match digit_value c with
        | Some d =>
            if d <? base then digits base (acc * base + d) false l' else None
        | None => None
        end
  end.

(** The digits among digits and underscores. *)
Definition count_digits (l : list ascii) : Z :=
  Z.of_nat (length (List.filter (fun c => negb (Ascii.eqb c "_")) l)).

Definition magnitude (base : Z) (l : list ascii) : option Z :=
  let l :=
    match l with
    | "0"%char :: x :: l' =>
        if (base =? 16) && (Ascii.eqb x "x" || Ascii.eqb x "X") then
          match l' with
          | "_"%char :: l'' => l''
          | _ => l'
          end
        else l
    | _ => l
    end in
  match l with
  | [] => None
  | c :: _ =>
      if Ascii.eqb c "_" then None
      else
        match digits base 0 false l with
        | Some z =>
            if (Z.land base (base - 1) =? 0) || (count_digits l <=? max_str_digits)
            then Some z else None
        | None => None
        end
  end.

Definition from_string (base : Z) (s : string) : option Z :=
  match strip (to_ascii <$> String.list_ascii_of_string s) with
  | "+"%char :: l => magnitude base l
  | "-"%char :: l => Z.opp <$> magnitude base l
  | l => magnitude base l
  end.

End PyLong.

(** [float(s)] for a string [s] reads a literal: the string is brought
    to ASCII as for [int], white space is stripped at both ends, an
    underscore may stand between two digits, one sign is allowed, and what
    follows is [inf], [infinity] or [nan] in any case, or a decimal number
    with an optional fraction and an optional exponent. The literal is kept exact here; rounding it to a
    float is left to [Float]. *)
Module PyFloat.

Inductive literal :=
| Decimal (negative : bool) (mantissa exponent : Z)   (* mantissa * 10 ^ exponent *)
| Infinity (negative : bool)
| Nan (negative : bool).

Definition is_digit (c : ascii) : bool :=
  let n := nat_of_ascii c in ((48 <=? n) && (n <=? 57))%nat.

(** The underscores are checked and removed; [prev] is the previous
    character. *)
Fixpoint remove_underscores (prev : option ascii) (l : list ascii)
    : option (list ascii) :=
  match l with
  | [] =>
      match prev with
      | Some "_"%char => None
      | _ => Some []
      end
  | c :: l' =>
      if Ascii.eqb c "_" then
        match prev with
        | Some p => if is_digit p then remove_underscores (Some c) l' else None
        | None => None
        end
      else
        match prev with
        | Some "_"%char =>
            if is_digit c then cons c <$> remove_underscores (Some c) l' else None
        | _ => cons c <$> remove_underscores (Some c) l'
        end
  end.

(** Reads digits: the value with them appended to [acc], how many were
    read, and the rest. *)
Fixpoint read_digits (acc : Z) (l : list ascii) : Z * nat * list ascii :=
  match l with
  | c :: l' =>
      if is_digit c then
        let '(acc', n, rest) :=
          read_digits (acc * 10 + (Z.of_nat (nat_of_ascii c) - 48)) l' in
        (acc', S n, rest)
      else (acc, O, l)
  | [] => (acc, O, [])
  end.

Definition lower (c : ascii) : ascii :=
  let n := nat_of_ascii c in
  if ((65 <=? n) && (n <=? 90))%nat then ascii_of_nat (n + 32) else c.

(** The exponent part, which must end the string. *)
Definition read_exponent (l : list ascii) : option Z :=
  match l with
  | [] => Some 0
  | c :: l' =>
      if Ascii.eqb (lower c) "e" then
        let '(negative, l'') :=
          match l' with
          | "+"%char :: l'' => (false, l'')
          | "-"%char :: l'' => (true, l'')
          | _ => (false, l')
          end in
        match read_digits 0 l'' with
        | (e, S _, []) => Some (if negative then - e else e)
        | _ => None
        end
      else None
  end.

Definition read_decimal (negative : bool) (l : list ascii) : option literal :=
  let '(int_part, n_int, rest) := read_digits 0 l in
  let '(mantissa, n_frac, rest) :=
    match rest with
    | "."%char :: rest' => read_digits int_part rest'
    | _ => (int_part, O, rest)
    end in
  match (n_int + n_frac)%nat with
  | O => None
  | S _ =>
      e ← read_exponent rest;
      Some (Decimal negative mantissa (e - Z.of_nat n_frac))
  end.

Definition read_unsigned (negative : bool) (l : list ascii) : option literal :=
  let word := String.string_of_list_ascii (map lower l) in
  if String.eqb word "inf" || String.eqb word "infinity" then Some (Infinity negative)
  else if String.eqb word "nan" then Some (Nan negative)
  else read_decimal negative l.

Definition from_string (s : string) : option literal :=
  l ← remove_underscores None
        (PyLong.strip (PyLong.to_ascii <$> String.list_ascii_of_string s));
  match l with
  | "+"%char :: l' => read_unsigned false l'
  | "-"%char :: l' => read_unsigned true l'
  | _ => read_unsigned false l
  end.

End PyFloat.

(** Python floats are kept abstract: the type, and what the conversions
    that the coercers call need of it. *)
Class Float := {
  float : Type;
  (** the float nearest to a literal *)
  float_of_literal : PyFloat.literal -> float;
  (** [float(z)] for an integer; [None] stands for OverflowError *)
  float_of_int : Z -> option float;
  (** [int(f)] truncates a finite float; it raises ValueError on a nan
      and OverflowError on an infinity *)
  float_trunc : float -> Z;
  float_is_nan : float -> bool;
  float_is_inf : float -> bool
}.

Section coercers.
Context `{Float}.

(** The values a configuration file can hold. A bool is an [int] of the
    subclass [bool], the integer 0 or 1. [V_object] is any other object
    that is no number, no string and no bytes and has no numeric
    conversion, as a list, a dictionary or a date: [int], [float] and
    [int(_, 16)] raise TypeError on it. *)
Inductive value :=
| V_int (z : Z)
| V_bool (b : bool)
| V_float (f : float)
| V_str (s : string)
| V_none
| V_object.

(** [isinstance(value, int)] *)
Definition isinstance_int (v : value) : bool :=
  match v with
  | V_int _ | V_bool _ => true
  | _ => false
  end.

(** [isinstance(value, float)] *)
Definition isinstance_float (v : value) : bool :=
  match v with
  | V_float _ => true
  | _ => false
  end.

(** [int(value)] *)
Definition py_int (v : value) : result Z :=
  match v with
  | V_int z => Ok z
  | V_bool b => Ok (Z.b2z b)
  | V_float f =>
      if float_is_nan f then Raise ValueError
      else if float_is_inf f then Raise OverflowError
      else Ok (float_trunc f)
  | V_str s =>
      match PyLong.from_string 10 s with
      | Some z => Ok z
      | None => Raise ValueError
      end
  | V_none | V_object => Raise TypeError
  end.

(** [int(value, 16)] *)
Definition py_int16 (v : value) : result Z :=
  match v with
  | V_str s =>
      match PyLong.from_string 16 s with
      | Some z => Ok z
      | None => Raise ValueError
      end
  | _ => Raise TypeError
  end.

(** [float(value)] *)
Definition py_float (v : value) : result float :=
  match v with
  | V_int z =>
      match float_of_int z with
      | Some f => Ok f
      | None => Raise OverflowError
      end
  | V_bool b =>
      match float_of_int (Z.b2z b) with
      | Some f => Ok f
      | None => Raise OverflowError
      end
  | V_float f => Ok f
  | V_str s =>
      match PyFloat.from_string s with
      | Some literal => Ok (float_of_literal literal)
      | None => Raise ValueError
      end
  | V_none | V_object => Raise TypeError
  end.

(** [except (TypeError, ValueError)] *)
Definition caught (e : exn) : bool :=
  match e with
  | TypeError | ValueError | UnicodeEncodeError => true
  | _ => false
  end.

(** [try: body  except (TypeError, ValueError): handler] *)
Definition try_except {A} (body : result A) (handler : result A) : result A :=
  match body with
  | Ok a => Ok a
  | Raise e => if caught e then handler else Raise e
  end.

(** Both validators return a value: the one they were given, or the
    number read from it. *)
Definition number_validator (v : value) : result value :=
  if isinstance_int v then Ok v
  else if isinstance_float v then Ok v
  else
    try_except (V_int <$> py_int v)
      (try_except (V_float <$> py_float v)
         (Raise (Invalid Invalid_number))).

Definition nan_validator (v : value) : result value :=
  if isinstance_int v then Ok v
  else
    try_except (V_int <$> py_int v)
      (try_except (V_int <$> py_int16 v)
         (Raise (Invalid Invalid_number))).

End coercers.

(** ** Hubs and entities *)

(** An entity of a platform list: the keys that the timing normaliser and
    the duplicate resolver read. [ent_hvac_mode_register] and
    [ent_fan_mode_register] hold the [CONF_ADDRESS] of the nested
    dictionary. *)
Record Entity := {
  ent_name : string;
  ent_address : Z;
  ent_input_type : option string;
  ent_write_type : option string;
  ent_command_on : option Z;
  ent_command_off : option Z;
  ent_slave : option Z;
  ent_device_address : option Z;
  ent_target_temp : option Z;
  ent_hvac_mode_register : option Z;
  ent_fan_mode_register : option Z;
  ent_scan_interval : option Z
}.

(** The value under [CONF_PORT]: a device path or a port number. The
    connection keys collected in [hosts] are values of the same kind. *)
Inductive scalar :=
| S_str (s : string)
| S_int (z : Z).

Definition str_scalar (v : scalar) : string :=
  match v with
  | S_str s => s
  | S_int z => str_int z
  end.

#[global] Instance scalar_eq_dec : EqDecision scalar.
Proof. solve_decision. Defined.

#[global] Instance scalar_countable : Countable scalar.
Proof.
  refine (inj_countable'
            (fun v => match v with S_str s => inl s | S_int z => inr z end)
            (fun x => match x with inl s => S_str s | inr z => S_int z end) _).
  by intros [].
Defined.

(** A hub: [hub_entities] holds the platform lists by their key.
    [hub_host] is read for hubs that are not serial only. *)
Record Hub := {
  hub_name : option string;
  hub_type : string;
  hub_host : string;
  hub_port : scalar;
  hub_timeout : option Z;
  hub_entities : gmap string (list Entity)
}.

Definition set_entities (hub : Hub) (entities : gmap string (list Entity)) : Hub :=
  {| hub_name := hub_name hub;
     hub_type := hub_type hub;
     hub_host := hub_host hub;
     hub_port := hub_port hub;
     hub_timeout := hub_timeout hub;
     hub_entities := entities |}.

Definition set_timeout (hub : Hub) (timeout : Z) : Hub :=
  {| hub_name := hub_name hub;
     hub_type := hub_type hub;
     hub_host := hub_host hub;
     hub_port := hub_port hub;
     hub_timeout := Some timeout;
     hub_entities := hub_entities hub |}.

Definition set_scan_interval (entry : Entity) (scan_interval : Z) : Entity :=
  {| ent_name := ent_name entry;
     ent_address := ent_address entry;
     ent_input_type := ent_input_type entry;
     ent_write_type := ent_write_type entry;
     ent_command_on := ent_command_on entry;
     ent_command_off := ent_command_off entry;
     ent_slave := ent_slave entry;
     ent_device_address := ent_device_address entry;
     ent_target_temp := ent_target_temp entry;
     ent_hvac_mode_register := ent_hvac_mode_register entry;
     ent_fan_mode_register := ent_fan_mode_register entry;
     ent_scan_interval := Some scan_interval |}.

(** [for index, x in enumerate(l): st = body(index, x, st)], counting
    from [index]. *)
Fixpoint for_enumerate {A St : Type} (body : nat -> A -> St -> St)
    (index : nat) (l : list A) (st : St) : St :=
  match l with
  | [] => st
  | x :: l => for_enumerate body (S index) l (body index x st)
  end.

(** [for i in reversed(errors): del l[i]]. Python raises IndexError on an
    index out of range, where [delete] leaves the list as it is; the
    indices that the loops collect are in range ([deletable] below). *)
Definition delete_indices {A : Type} (errors : list nat) (l : list A) : list A :=
  foldl (fun l i => delete i l) l (reverse errors).

(** ** Timing normaliser: [scan_interval_validator] *)

Section scan_interval_validator.
Context `{Const}.

(** [entry.get(CONF_SCAN_INTERVAL, DEFAULT_SCAN_INTERVAL)] *)
Definition get_scan_interval (entry : Entity) : Z :=
  default DEFAULT_SCAN_INTERVAL (ent_scan_interval entry).

(** The body of the loop over the entries of one platform list. *)
Definition scan_entry (entry : Entity) (minimum_scan_interval : Z) : Entity * Z :=
  let scan_interval := get_scan_interval entry in
  if scan_interval =? 0 then (entry, minimum_scan_interval)
  else (set_scan_interval entry scan_interval,
        Z.min scan_interval minimum_scan_interval).

Fixpoint scan_entries (entries : list Entity) (minimum_scan_interval : Z)
    : list Entity * Z :=
  match entries with
  | [] => ([], minimum_scan_interval)
  | entry :: entries =>
      let '(entry, minimum_scan_interval) := scan_entry entry minimum_scan_interval in
      let '(entries, minimum_scan_interval) := scan_entries entries minimum_scan_interval in
      (entry :: entries, minimum_scan_interval)
  end.

(** The body of the loop over [PLATFORMS]. *)
Definition scan_platform (st : Hub * Z) (platform : string * string) : Hub * Z :=
  let '(hub, minimum_scan_interval) := st in
  let '(component, conf_key) := platform in
  match hub_entities hub !! conf_key with
  | None => st
  | Some entries =>
      let '(entries, minimum_scan_interval) := scan_entries entries minimum_scan_interval in
      (set_entities hub (<[conf_key := entries]> (hub_entities hub)),
       minimum_scan_interval)
  end.

(** The hub and the minimum after the loop over [PLATFORMS]. *)
Definition scan_platforms (hub : Hub) : Hub * Z :=
  foldl scan_platform (hub, DEFAULT_SCAN_INTERVAL) PLATFORMS.

Definition adjust_timeout (hub : Hub) (minimum_scan_interval : Z) : Hub :=
  match hub_timeout hub with
  | Some timeout =>
      if (minimum_scan_interval - 1 <? timeout) && (1 <? minimum_scan_interval)
      then set_timeout hub (minimum_scan_interval - 1)
      else hub
  | None => hub
  end.

Definition scan_interval_validator (config : list Hub) : list Hub :=
  map (fun hub =>
         let '(hub, minimum_scan_interval) := scan_platforms hub in
         adjust_timeout hub minimum_scan_interval)
      config.

End scan_interval_validator.

(** ** Duplicate resolver for entities: [duplicate_entity_validator] *)

Section duplicate_entity_validator.
Context `{Const}.

(** [entry.get(CONF_SLAVE, None) or entry.get(CONF_DEVICE_ADDRESS, 0)] *)
Definition entity_inx (entry : Entity) : Z :=
  match ent_slave entry with
  | Some z => if z =? 0 then default 0 (ent_device_address entry) else z
  | None => default 0 (ent_device_address entry)
  end.

(** The primary address key [addr]. *)
Definition entity_addr (entry : Entity) : string :=
  let addr := str_int (ent_address entry) in
  let addr :=
    match ent_input_type entry, ent_write_type entry with
    | Some t, _ => addr +:+ "_" +:+ t
    | None, Some t => addr +:+ "_" +:+ t
    | None, None => addr
    end in
  let addr :=
    match ent_command_on entry with
    | Some c => addr +:+ "_" +:+ str_int c
    | None => addr
    end in
  let addr :=
    match ent_command_off entry with
    | Some c => addr +:+ "_" +:+ str_int c
    | None => addr
    end in
  addr +:+ "_" +:+ str_int (entity_inx entry).

(** The key of a nested register, if the entity has it. *)
Definition secondary_addr (register : option Z) (inx : Z) : gset string :=
  match register with
  | Some a => {[ str_int a +:+ "_" +:+ str_int inx ]}
  | None => ∅
  end.

(** The set [entry_addrs]. *)
Definition entity_addrs (entry : Entity) : gset string :=
  let inx := entity_inx entry in
  {[ entity_addr entry ]}
  ∪ secondary_addr (ent_target_temp entry) inx
  ∪ secondary_addr (ent_hvac_mode_register entry) inx
  ∪ secondary_addr (ent_fan_mode_register entry) inx.

Record entity_scan := {
  e_names : gset string;
  e_errors : list nat;
  e_addresses : gset string
}.

(** The body of the loop over the enumerated entries. *)
Definition entity_step (index : nat) (entry : Entity) (st : entity_scan) : entity_scan :=
  let name := ent_name entry in
  let entry_addrs := entity_addrs entry in
  let dup_addrs := entry_addrs ∩ e_addresses st in
  if bool_decide (0 < size dup_addrs)%nat then
    {| e_names := e_names st;
       e_errors := e_errors st ++ [index];
       e_addresses := e_addresses st |}
  else if bool_decide (name ∈ e_names st) then
    {| e_names := e_names st;
       e_errors := e_errors st ++ [index];
       e_addresses := e_addresses st |}
  else
    {| e_names := {[ name ]} ∪ e_names st;
       e_errors := e_errors st;
       e_addresses := e_addresses st ∪ entry_addrs |}.

(** One platform list: the scan, then the deletions. *)
Definition dedupe_entries (entries : list Entity) : list Entity :=
  let st := for_enumerate entity_step 0 entries
              {| e_names := ∅; e_errors := []; e_addresses := ∅ |} in
  delete_indices (e_errors st) entries.

(** The body of the loop over [PLATFORMS]. *)
Definition dedupe_platform (hub : Hub) (platform : string * string) : Hub :=
  let '(component, conf_key) := platform in
  match hub_entities hub !! conf_key with
  | None => hub
  | Some entries =>
      set_entities hub (<[conf_key := dedupe_entries entries]> (hub_entities hub))
  end.

Definition duplicate_entity_validator (config : list Hub) : list Hub :=
  map (fun hub => foldl dedupe_platform hub PLATFORMS) config.

End duplicate_entity_validator.

(** ** Duplicate resolver for hubs: [duplicate_modbus_validator] *)

(** The two warnings of the hub resolver. *)
Inductive warning :=
| Duplicate_host_port (name : string) (host : scalar)
| Duplicate_name (name : string).

Record hub_scan := {
  h_hosts : gset scalar;
  h_names : gset string;
  h_errors : list nat;
  h_warnings : list warning
}.

Section duplicate_modbus_validator.
Context `{Const}.

(** [hub.get(CONF_NAME, DEFAULT_HUB)] *)
Definition get_hub_name (hub : Hub) : string :=
  default DEFAULT_HUB (hub_name hub).

(** The connection key [host]. *)
Definition hub_key (hub : Hub) : scalar :=
  if String.eqb (hub_type hub) SERIAL then hub_port hub
  else S_str (hub_host hub +:+ "_" +:+ str_scalar (hub_port hub)).

(** The body of the loop over the enumerated hubs. *)
Definition hub_step (index : nat) (hub : Hub) (st : hub_scan) : hub_scan :=
  let name := get_hub_name hub in
  let host := hub_key hub in
  if bool_decide (host ∈ h_hosts st) then
    {| h_hosts := h_hosts st;
       h_names := h_names st;
       h_errors := h_errors st ++ [index];
       h_warnings := h_warnings st ++ [Duplicate_host_port name host] |}
  else if bool_decide (name ∈ h_names st) then
    {| h_hosts := h_hosts st;
       h_names := h_names st;
       h_errors := h_errors st ++ [index];
       h_warnings := h_warnings st ++ [Duplicate_name name] |}
  else
    {| h_hosts := {[ host ]} ∪ h_hosts st;
       h_names := {[ name ]} ∪ h_names st;
       h_errors := h_errors st;
       h_warnings := h_warnings st |}.

(** The returned list and the warnings logged. *)
Definition duplicate_modbus_validator (config : list Hub) : list Hub * list warning :=
  let st := for_enumerate hub_step 0 config
              {| h_hosts := ∅; h_names := ∅; h_errors := []; h_warnings := [] |} in
  (delete_indices (h_errors st) config, h_warnings st).

End duplicate_modbus_validator.

(** ** Duplicate resolver for mode values: [duplicate_fan_mode_validator] *)

(** The dictionary under [CONF_FAN_MODE_VALUES], in insertion order; its
    keys are distinct. *)
Record FanConfig := {
  conf_fan_mode_values : list (string * Z);
  fan_other : gmap string string
}.

(** [del d[key]]. Python raises KeyError on an absent key, where
    [dict_del] leaves the dictionary as it is; the keys that the loop
    collects are present ([dict_deletable] below). *)
Fixpoint dict_del (key : string) (d : list (string * Z)) : list (string * Z) :=
  match d with
  | [] => []
  | (k, v) :: d => if String.eqb k key then d else (k, v) :: dict_del key d
  end.

Record fan_scan := {
  f_fan_modes : gset Z;
  f_errors : list string
}.

(** The body of the loop over the items. *)
Definition fan_step (st : fan_scan) (item : string * Z) : fan_scan :=
  let '(key, value) := item in
  if bool_decide (value ∈ f_fan_modes st) then
    {| f_fan_modes := f_fan_modes st; f_errors := f_errors st ++ [key] |}
  else
    {| f_fan_modes := {[ value ]} ∪ f_fan_modes st; f_errors := f_errors st |}.

(** The items: the scan, then the deletions. *)
Definition dedupe_fan_modes (items : list (string * Z)) : list (string * Z) :=
  let st := foldl fan_step {| f_fan_modes := ∅; f_errors := [] |} items in
  foldl (fun d key => dict_del key d) items (reverse (f_errors st)).

Definition duplicate_fan_mode_validator (config : FanConfig) : FanConfig :=
  {| conf_fan_mode_values := dedupe_fan_modes (conf_fan_mode_values config);
     fan_other := fan_other config |}.

(** ** Constants for the examples

    Values with which the parametric statements are instantiated. *)
Definition example_const : Const := {|
  CONF_SWAP_BYTE := "byte";
  CONF_SWAP_WORD := "word";
  CONF_SWAP_WORD_BYTE := "word_byte";
  DEFAULT_SCAN_INTERVAL := 15;
  PLATFORMS := [("binary_sensor", "binary_sensors"); ("climate", "climates");
                ("cover", "covers"); ("light", "lights"); ("fan", "fans");
                ("sensor", "sensors"); ("switch", "switches")];
  SERIAL := "serial";
  DEFAULT_HUB := "modbus_hub"
|}.

(** A register declaration named [register] with the given data type,
    count, structure, slave count and swap, and no other key. *)
Definition example_register (data_type : data_type_value) (count : option Z)
    (structure : option string) (slave_count : option Z) (swap : option string)
    : Config :=
  {| conf_name := "register";
     conf_data_type := data_type;
     conf_count := count;
     conf_structure := structure;
     conf_slave_count := slave_count;
     conf_virtual_count := None;
     conf_swap := swap;
     conf_other := ∅ |}.

(** An entity with a name, an address and a poll interval, and no other
    key. *)
Definition example_entity (name : string) (address : Z) (scan_interval : option Z)
    : Entity :=
  {| ent_name := name;
     ent_address := address;
     ent_input_type := None;
     ent_write_type := None;
     ent_command_on := None;
     ent_command_off := None;
     ent_slave := None;
     ent_device_address := None;
     ent_target_temp := None;
     ent_hvac_mode_register := None;
     ent_fan_mode_register := None;
     ent_scan_interval := scan_interval |}.

(** A network hub with a list of sensors. *)
Definition example_hub (name host : string) (port : Z) (timeout : option Z)
    (sensors : list Entity) : Hub :=
  {| hub_name := Some name;
     hub_type := "tcp";
     hub_host := host;
     hub_port := S_int port;
     hub_timeout := timeout;
     hub_entities := {[ "sensors" := sensors ]} |}.

(** The timing example of the specification: sensors polled every 0, 3
    and 30 seconds under a hub with a timeout of 10. *)
Definition example_sensors : list Entity :=
  [example_entity "a" 1 (Some 0); example_entity "b" 2 (Some 3);
   example_entity "c" 3 (Some 30)].

Definition example_timing_hub : Hub :=
  example_hub "hub" "host" 502 (Some 10) example_sensors.

(** Three sensors of which the second repeats the address of the first
    and the third repeats the name of the second. *)
Definition example_duplicates : list Entity :=
  [example_entity "x" 1 None; example_entity "y" 1 None; example_entity "y" 2 None].

(** Mode values of which the second repeats the value of the first. *)
Definition example_fan_config : FanConfig :=
  {| conf_fan_mode_values := [("low", 1); ("medium", 1); ("high", 2)];
     fan_other := ∅ |}.

(** Floats without rounding: a float is the literal it was read from. *)
Definition example_float : Float :=
  {| float := PyFloat.literal;
     float_of_literal := fun literal => literal;
     float_of_int := fun z => Some (PyFloat.Decimal (z <? 0) (Z.abs z) 0);
     float_trunc := fun f =>
       match f with
       | PyFloat.Decimal negative mantissa exponent =>
           (if negative then -1 else 1)
           * (if 0 <=? exponent then mantissa * 10 ^ exponent
              else mantissa / 10 ^ (- exponent))
       | _ => 0
       end;
     float_is_nan := fun f => if f is PyFloat.Nan _ then true else false;
     float_is_inf := fun f => if f is PyFloat.Infinity _ then true else false |}.

(** * The properties of the specification *)

(** ** Statements in the words of the specification *)

(** The fixed word count of a data type in the type layout table. *)
Definition spec_word_count (dt : DataType) : Z :=
  match dt with
  | INT16 | UINT16 | FLOAT16 => 1
  | INT32 | UINT32 | FLOAT32 => 2
  | INT64 | UINT64 | FLOAT64 => 4
  | STRING | CUSTOM => 0
  end.

(** A parameter violates the legality matrix when it is absent and
    demanded, or present and illegal. *)
Definition parameter_violation {A : Type} (field : option A) (legal : legality) : Prop :=
  (field = None ∧ legal = DEMANDED) ∨ (field ≠ None ∧ legal = ILLEGAL).

(** The messages of a violated legality matrix. *)
Definition schema_violation (m : message) : Prop :=
  match m with
  | Missing_demanded _ _ _ | Illegal_with _ _ _ | Swap_illegal _ _ _ => True
  | _ => False
  end.

Section legality_matrix.
Context `{Const}.

(** BYTE resolves to the swapByte column, WORD and WORD_AND_BYTE to the
    swapWord column. *)
Definition resolved_swap_legality (validator : PARM_IS_LEGAL) (swap_type : string)
    : option legality :=
  if String.eqb swap_type CONF_SWAP_BYTE then Some (swap_byte validator)
  else if String.eqb swap_type CONF_SWAP_WORD then Some (swap_word validator)
  else if String.eqb swap_type CONF_SWAP_WORD_BYTE then Some (swap_word validator)
  else None.

Definition swap_violation (validator : PARM_IS_LEGAL) (swap : option string) : Prop :=
  ∃ swap_type, swap = Some swap_type
               ∧ resolved_swap_legality validator swap_type = Some ILLEGAL.

Definition matrix_violated (config : Config) : Prop :=
  let validator :=
    validate_parm (DEFAULT_STRUCT_FORMAT (resolve_data_type (conf_data_type config))) in
  parameter_violation (conf_count config) (count validator)
  ∨ parameter_violation (conf_structure config) (structure validator)
  ∨ parameter_violation (get_slave_count config) (slave_count validator)
  ∨ swap_violation validator (conf_swap config).

(** The swap constants are three modes: none is the empty string and BYTE
    differs from the two word modes. *)
Definition swap_modes_distinct : Prop :=
  CONF_SWAP_BYTE ≠ "" ∧ CONF_SWAP_WORD ≠ "" ∧ CONF_SWAP_WORD_BYTE ≠ ""
  ∧ CONF_SWAP_BYTE ≠ CONF_SWAP_WORD ∧ CONF_SWAP_BYTE ≠ CONF_SWAP_WORD_BYTE.

(** The structure string as the specification synthesises it: the
    repeat count whenever a slave count is present. *)
Definition claimed_structure (config : Config) : string :=
  let tag := struct_id (DEFAULT_STRUCT_FORMAT (resolve_data_type (conf_data_type config))) in
  match get_slave_count config with
  | Some n => ">" +:+ str_int (n + 1) +:+ tag
  | None => ">" +:+ tag
  end.

End legality_matrix.

(** The entries that a marking loop keeps: those on which [rejected] is
    false in the state the loop has reached. *)
Fixpoint kept {A St : Type} (rejected : St -> A -> bool)
    (body : nat -> A -> St -> St) (index : nat) (l : list A) (st : St) : list A :=
  match l with
  | [] => []
  | x :: l =>
      if rejected st x then kept rejected body (S index) l (body index x st)
      else x :: kept rejected body (S index) l (body index x st)
  end.

(** The indices can be deleted from the list one after the other. *)
Fixpoint deletable {A : Type} (indices : list nat) (l : list A) : Prop :=
  match indices with
  | [] => True
  | i :: indices => (i < length l)%nat ∧ deletable indices (delete i l)
  end.

(** The keys can be deleted from the dictionary one after the other. *)
Fixpoint dict_deletable (keys : list string) (d : list (string * Z)) : Prop :=
  match keys with
  | [] => True
  | key :: keys => key ∈ d.*1 ∧ dict_deletable keys (dict_del key d)
  end.

(** [R] relates every element of the list to every later one. *)
Definition pairwise {A : Type} (R : A -> A -> Prop) (l : list A) : Prop :=
  ∀ (i j : nat) (a b : A), (i < j)%nat → l !! i = Some a → l !! j = Some b → R a b.

(** The address keys and the names of a list of entities. *)
Definition keys_of (entries : list Entity) : gset string :=
  ⋃ (entity_addrs <$> entries).

Definition names_of (entries : list Entity) : gset string :=
  list_to_set (ent_name <$> entries).

(** The state of the entity loop after [entries]. *)
Definition entity_state (entries : list Entity) : entity_scan :=
  for_enumerate entity_step 0 entries
    {| e_names := ∅; e_errors := []; e_addresses := ∅ |}.

(** The test of [entity_step]. *)
Definition entity_rejected (st : entity_scan) (entry : Entity) : bool :=
  bool_decide (0 < size (entity_addrs entry ∩ e_addresses st))%nat
  || bool_decide (ent_name entry ∈ e_names st).

Section hub_statements.
Context `{Const}.

(** The connection keys and the names of a list of hubs. *)
Definition hub_keys_of (hubs : list Hub) : gset scalar :=
  list_to_set (hub_key <$> hubs).

Definition hub_names_of (hubs : list Hub) : gset string :=
  list_to_set (get_hub_name <$> hubs).

(** The state of the hub loop after [hubs]. *)
Definition hub_state (hubs : list Hub) : hub_scan :=
  for_enumerate hub_step 0 hubs
    {| h_hosts := ∅; h_names := ∅; h_errors := []; h_warnings := [] |}.

(** The test of [hub_step]. *)
Definition hub_rejected (st : hub_scan) (hub : Hub) : bool :=
  bool_decide (hub_key hub ∈ h_hosts st)
  || bool_decide (get_hub_name hub ∈ h_names st).

(** A non-zero poll interval of an entity in a platform list of the hub. *)
Definition contained_interval (hub : Hub) (interval : Z) : Prop :=
  ∃ (platform : string * string) (entries : list Entity) (entry : Entity),
    platform ∈ PLATFORMS
    ∧ hub_entities hub !! platform.2 = Some entries
    ∧ entry ∈ entries
    ∧ get_scan_interval entry = interval
    ∧ interval ≠ 0.

(** The poll intervals under a key, as the loop reads them. *)
Definition intervals_at (hub : Hub) (key : string) : option (list Z) :=
  match hub_entities hub !! key with
  | Some entries => Some (get_scan_interval <$> entries)
  | None => None
  end.

(** An entry after the timing loop: its poll interval is written under
    its key unless it is 0. *)
Definition written_back (entry : Entity) : Entity :=
  if get_scan_interval entry =? 0 then entry
  else set_scan_interval entry (get_scan_interval entry).

End hub_statements.



(** The state of the mode-value loop after [items], and the values of a
    list of items. *)
Definition fan_state (items : list (string * Z)) : fan_scan :=
  foldl fan_step {| f_fan_modes := ∅; f_errors := [] |} items.

Definition values_of (items : list (string * Z)) : gset Z :=
  list_to_set items.*2.

(** * Proofs *)

(** ** Marking loops and their deletions *)

Section marked_deletion.
Context {A St : Type}.
Variable body : nat → A → St → St.
Variable errors : St → list nat.
Variable rejected : St → A → bool.
Hypothesis body_errors : ∀ index x st,
  errors (body index x st)
  = if rejected st x then errors st ++ [index] else errors st.

Lemma for_enumerate_snoc (index : nat) (l : list A) (x : A) (st : St) :
  for_enumerate body index (l ++ [x]) st
  = body (index + length l) x (for_enumerate body index l st).
Proof.
  revert index st. induction l as [|y l IH]; intros index st; simpl.
  - by rewrite Nat.add_0_r.
  - rewrite IH. by rewrite Nat.add_succ_comm.
Qed.

Lemma kept_snoc (index : nat) (l : list A) (x : A) (st : St) :
  kept rejected body index (l ++ [x]) st
  = kept rejected body index l st
    ++ (if rejected (for_enumerate body index l st) x then [] else [x]).
Proof.
  revert index st. induction l as [|y l IH]; intros index st; simpl.
  - by destruct (rejected st x).
  - rewrite IH. by destruct (rejected st y).
Qed.

Lemma delete_app_l (l1 l2 : list A) (i : nat) :
  (i < length l1)%nat → delete i (l1 ++ l2) = delete i l1 ++ l2.
Proof.
  revert i. induction l1 as [|y l1 IH]; intros i Hi; simpl in *; [lia|].
  destruct i as [|i]; [done|]. simpl. f_equal. apply IH. lia.
Qed.

Lemma deletable_app (indices : list nat) (l1 l2 : list A) :
  deletable indices l1 → deletable indices (l1 ++ l2).
Proof.
  revert l1. induction indices as [|i indices IH]; intros l1; simpl; [done|].
  intros [Hi Hrest]. split; [rewrite length_app; lia|].
  rewrite delete_app_l by done. by apply IH.
Qed.

Lemma foldl_delete_app (indices : list nat) (l1 l2 : list A) :
  deletable indices l1 →
  foldl (λ l i, delete i l) (l1 ++ l2) indices
  = foldl (λ l i, delete i l) l1 indices ++ l2.
Proof.
  revert l1. induction indices as [|i indices IH]; intros l1; simpl; [done|].
  intros [Hi Hrest]. rewrite delete_app_l by done. by apply IH.
Qed.

(** One step of the loop, seen on the list after the deletions. *)
Lemma delete_indices_step (pre : list A) (x : A) (st : St) :
  deletable (reverse (errors st)) pre →
  deletable (reverse (errors (body (length pre) x st))) (pre ++ [x])
  ∧ delete_indices (errors (body (length pre) x st)) (pre ++ [x])
    = delete_indices (errors st) pre ++ (if rejected st x then [] else [x]).
Proof.
  intros Hdel. unfold delete_indices. rewrite body_errors.
  destruct (rejected st x).
  - rewrite reverse_snoc. simpl.
    assert (delete (length pre) (pre ++ [x]) = pre) as ->.
    { rewrite (delete_middle pre [] x). apply app_nil_r. }
    split; [|by rewrite app_nil_r].
    split; [rewrite length_app; simpl; lia|done].
  - split; [by apply deletable_app|by apply foldl_delete_app].
Qed.

Lemma for_enumerate_delete (l pre : list A) (st : St) :
  deletable (reverse (errors st)) pre →
  delete_indices (errors (for_enumerate body (length pre) l st)) (pre ++ l)
  = delete_indices (errors st) pre ++ kept rejected body (length pre) l st.
Proof.
  revert pre st. induction l as [|x l IH]; intros pre st Hdel; simpl.
  - by rewrite !app_nil_r.
  - destruct (delete_indices_step pre x st Hdel) as [Hdel' Hstep].
    specialize (IH (pre ++ [x]) (body (length pre) x st)).
    rewrite length_app, Nat.add_1_r, <- app_assoc in IH. simpl in IH.
    rewrite IH by done. rewrite Hstep.
    destruct (rejected st x); by rewrite <- app_assoc.
Qed.

(** Every deletion finds its index in range. *)
Lemma for_enumerate_deletable (l pre : list A) (st : St) :
  deletable (reverse (errors st)) pre →
  deletable (reverse (errors (for_enumerate body (length pre) l st))) (pre ++ l).
Proof.
  revert pre st. induction l as [|x l IH]; intros pre st Hdel; simpl.
  - by rewrite app_nil_r.
  - destruct (delete_indices_step pre x st Hdel) as [Hdel' _].
    specialize (IH (pre ++ [x]) (body (length pre) x st)).
    rewrite length_app, Nat.add_1_r, <- app_assoc in IH. by apply IH.
Qed.

Lemma marked_deletable (l : list A) (st : St) :
  errors st = [] →
  deletable (reverse (errors (for_enumerate body 0 l st))) l.
Proof.
  intros Hnil. pose proof (for_enumerate_deletable l [] st) as Hdel.
  rewrite Hnil in Hdel. by apply Hdel.
Qed.

(** The list after the deletions is the list of the kept entries. *)
Lemma marked_deletion (l : list A) (st : St) :
  errors st = [] →
  delete_indices (errors (for_enumerate body 0 l st)) l
  = kept rejected body 0 l st.
Proof.
  intros Hnil. pose proof (for_enumerate_delete l [] st) as Hdel.
  rewrite Hnil in Hdel. simpl in Hdel. by apply Hdel.
Qed.

(** Hence the result grows with the input, one entry at a time. *)
Lemma marked_deletion_snoc (l : list A) (x : A) (st : St) :
  errors st = [] →
  delete_indices (errors (for_enumerate body 0 (l ++ [x]) st)) (l ++ [x])
  = delete_indices (errors (for_enumerate body 0 l st)) l
    ++ (if rejected (for_enumerate body 0 l st) x then [] else [x]).
Proof.
  intros Hnil. rewrite !marked_deletion by done. apply kept_snoc.
Qed.

End marked_deletion.

Lemma pairwise_nil {A : Type} (R : A → A → Prop) : pairwise R [].
Proof. intros i j a b _ Hi. by rewrite lookup_nil in Hi. Qed.

Lemma pairwise_snoc {A : Type} (R : A → A → Prop) (l : list A) (x : A) :
  pairwise R l → (∀ a, a ∈ l → R a x) → pairwise R (l ++ [x]).
Proof.
  intros Hl Hx i j a b Hij Hi Hj.
  destruct (decide (j < length l)%nat) as [Hlt|Hge].
  - rewrite lookup_app_l in Hi, Hj by lia. exact (Hl i j a b Hij Hi Hj).
  - rewrite lookup_app_l in Hi.
    + rewrite lookup_app_r in Hj by lia.
      destruct (j - length l)%nat as [|k] eqn:Hk; simpl in Hj; [|by destruct k].
      injection Hj as <-. apply Hx. by eapply list_elem_of_lookup_2.
    + apply lookup_lt_Some in Hj. rewrite length_app in Hj. simpl in Hj. lia.
Qed.

(** ** Register validator *)

Section struct_validator_facts.
Context `{Const}.

Lemma parameter_checks_ok (config : Config) :
  parameter_checks config = Ok ()
  ↔ ¬ parameter_violation (conf_count config)
        (count (validate_parm (DEFAULT_STRUCT_FORMAT (resolve_data_type (conf_data_type config)))))
    ∧ ¬ parameter_violation (conf_structure config)
        (structure (validate_parm (DEFAULT_STRUCT_FORMAT (resolve_data_type (conf_data_type config)))))
    ∧ ¬ parameter_violation (get_slave_count config)
        (slave_count (validate_parm (DEFAULT_STRUCT_FORMAT (resolve_data_type (conf_data_type config))))).
Proof.
  unfold parameter_checks, parameter_violation.
  destruct (validate_parm _) as [c s sl sb sw]; simpl.
  destruct (conf_count config), (conf_structure config), (get_slave_count config);
    destruct c, s, sl; simpl; intuition congruence.
Qed.

Lemma parameter_checks_raise (config : Config) (e : exn) :
  parameter_checks config = Raise e → ∃ m, e = Invalid m ∧ schema_violation m.
Proof.
  unfold parameter_checks.
  destruct (validate_parm _) as [c s sl sb sw]; simpl.
  destruct (conf_count config), (conf_structure config), (get_slave_count config);
    destruct c, s, sl; simpl; intros [= <-] || discriminate; eexists; split;
    first [ reflexivity | exact I ].
Qed.

Lemma swap_lookup (validator : PARM_IS_LEGAL) (swap_type : string) :
  swap_modes_distinct →
  swap_type_validators validator !! swap_type
  = resolved_swap_legality validator swap_type.
Proof.
  intros (_ & _ & _ & Hbw & Hbwb).
  unfold swap_type_validators, resolved_swap_legality.
  rewrite !lookup_insert, lookup_empty.
  destruct (String.eqb_spec swap_type CONF_SWAP_BYTE) as [Hb|Hb];
    destruct (String.eqb_spec swap_type CONF_SWAP_WORD) as [Hw|Hw];
    destruct (String.eqb_spec swap_type CONF_SWAP_WORD_BYTE) as [Hwb|Hwb];
    repeat case_decide; congruence.
Qed.

Lemma resolved_swap_nonempty (validator : PARM_IS_LEGAL) (swap_type : string) (l : legality) :
  swap_modes_distinct →
  resolved_swap_legality validator swap_type = Some l → swap_type ≠ "".
Proof.
  intros (Hb & Hw & Hwb & _) Hres ->. unfold resolved_swap_legality in Hres.
  destruct (String.eqb_spec "" CONF_SWAP_BYTE); [congruence|].
  destruct (String.eqb_spec "" CONF_SWAP_WORD); [congruence|].
  destruct (String.eqb_spec "" CONF_SWAP_WORD_BYTE); congruence.
Qed.

Lemma truthy_str_Some (s : string) : truthy_str (Some s) = true ↔ s ≠ "".
Proof.
  simpl. destruct (String.eqb_spec s ""); simpl; split; congruence.
Qed.

(** What the swap test does, by the resolved legality. *)
Lemma check_swap_spec (name : string) (dt : DataType) (validator : PARM_IS_LEGAL)
    (swap_type : string) :
  swap_modes_distinct →
  check_swap name dt validator (Some swap_type)
  = if String.eqb swap_type "" then Ok ()
    else match resolved_swap_legality validator swap_type with
         | None => Raise (KeyError swap_type)
         | Some ILLEGAL => Raise (Invalid (Swap_illegal name swap_type dt))
         | Some _ => Ok ()
         end.
Proof.
  intros Hd. unfold check_swap. rewrite (swap_lookup _ _ Hd). simpl.
  destruct (String.eqb swap_type ""); simpl; [done|].
  destruct (resolved_swap_legality validator swap_type) as [[]|]; done.
Qed.

Lemma check_swap_invalid (name : string) (dt : DataType) (validator : PARM_IS_LEGAL)
    (swap : option string) :
  swap_modes_distinct →
  (∃ m, check_swap name dt validator swap = Raise (Invalid m))
  ↔ swap_violation validator swap.
Proof.
  intros Hd. unfold swap_violation. destruct swap as [st|].
  - rewrite (check_swap_spec _ _ _ _ Hd). split.
    + intros [m Hm]. exists st. split; [done|].
      destruct (String.eqb st ""); [done|].
      destruct (resolved_swap_legality validator st) as [[]|]; done.
    + intros (st' & [= <-] & Hres).
      pose proof (resolved_swap_nonempty _ _ _ Hd Hres) as Hne.
      destruct (String.eqb_spec st ""); [done|]. rewrite Hres. eauto.
  - simpl. split; [intros [? [=]] | intros (? & [=] & _)].
Qed.

Lemma check_swap_raise (name : string) (dt : DataType) (validator : PARM_IS_LEGAL)
    (swap : option string) (m : message) :
  check_swap name dt validator swap = Raise (Invalid m) → schema_violation m.
Proof.
  unfold check_swap. destruct swap as [st|]; [|done].
  destruct (truthy_str (Some st)); [|done].
  destruct (_ !! st) as [l|]; [|done].
  destruct (legality_eqb l ILLEGAL); [|done]. by intros [= <-].
Qed.

(** The legality checks raise a configuration error exactly when the
    matrix is violated, and the error is one of the matrix. *)
Lemma legality_checks_invalid (config : Config) :
  swap_modes_distinct →
  (∃ m, legality_checks config = Raise (Invalid m)) ↔ matrix_violated config.
Proof.
  intros Hd. unfold legality_checks, matrix_violated.
  pose proof (parameter_checks_ok config) as Hok.
  pose proof (check_swap_invalid (conf_name config)
                (resolve_data_type (conf_data_type config))
                (validate_parm (DEFAULT_STRUCT_FORMAT
                                  (resolve_data_type (conf_data_type config))))
                (conf_swap config) Hd) as Hswap.
  destruct (parameter_checks config) as [[]|e] eqn:Hp; simpl.
  - rewrite Hswap. destruct Hok as [Hok _]. specialize (Hok eq_refl). tauto.
  - destruct (parameter_checks_raise _ _ Hp) as (m & -> & _). split; [|eauto].
    intros _. destruct Hok as [_ Hok].
    unfold parameter_violation in *.
    destruct (conf_count config), (conf_structure config), (get_slave_count config),
      (count _), (structure _), (slave_count _);
      first [ by (left; auto) | by (right; left; auto)
            | by (right; right; left; auto)
            | exfalso; assert (Raise (Invalid m) = Ok ()) as [=];
              apply Hok; intuition congruence ].
Qed.

Lemma legality_checks_raise (config : Config) (m : message) :
  legality_checks config = Raise (Invalid m) → schema_violation m.
Proof.
  unfold legality_checks.
  destruct (parameter_checks config) as [[]|e] eqn:Hp; simpl.
  - apply check_swap_raise.
  - intros [= ->]. by destruct (parameter_checks_raise _ _ Hp) as (m' & [= <-] & ?).
Qed.

Lemma struct_validator_legality (config : Config) (e : exn) :
  legality_checks config = Raise e → struct_validator config = Raise e.
Proof. unfold struct_validator. by intros ->. Qed.

(** Past the legality checks, a type that is not CUSTOM always validates. *)
Lemma struct_validator_fixed (config : Config) :
  legality_checks config = Ok () →
  resolve_data_type (conf_data_type config) ≠ CUSTOM →
  ∃ config', struct_validator config = Ok config'.
Proof.
  unfold struct_validator. intros -> Hdt. simpl.
  destruct (resolve_data_type (conf_data_type config)); by eauto.
Qed.

(** Past the legality checks, CUSTOM raises the layout errors only. *)
Lemma struct_validator_custom (config : Config) :
  legality_checks config = Ok () →
  resolve_data_type (conf_data_type config) = CUSTOM →
  struct_validator config
  = (check_custom (conf_name config) (conf_structure config) (conf_count config);;
     Ok {| conf_name := conf_name config;
           conf_data_type := Member CUSTOM;
           conf_count := conf_count config;
           conf_structure := conf_structure config;
           conf_slave_count := conf_slave_count config;
           conf_virtual_count := conf_virtual_count config;
           conf_swap := conf_swap config;
           conf_other := conf_other config |}).
Proof. unfold struct_validator. by intros -> ->. Qed.

Lemma check_custom_raise (name : string) (structure : option string)
    (count : option Z) (m : message) :
  check_custom name structure count = Raise (Invalid m) → ¬ schema_violation m.
Proof.
  unfold check_custom. destruct structure as [fmt|]; [|done].
  destruct (Struct.calcsize fmt); [|intros [= <-]; simpl; tauto|done].
  destruct count as [c|]; [|done].
  destruct (negb _); [intros [= <-]; simpl; tauto|done].
Qed.

End struct_validator_facts.

Section struct_validator_claims.
Context `{Const}.

(** C1: a declaration whose data type is neither CUSTOM nor STRING and
    that passes validation is returned with its count equal to the fixed
    word count of the type layout table (1, 2 or 4), whatever the count of
    the input was. *)
Theorem struct_validator_count (config config' : Config) :
  struct_validator config = Ok config' →
  resolve_data_type (conf_data_type config) ≠ CUSTOM →
  resolve_data_type (conf_data_type config) ≠ STRING →
  conf_count config'
  = Some (register_count (DEFAULT_STRUCT_FORMAT (resolve_data_type (conf_data_type config))))
  ∧ register_count (DEFAULT_STRUCT_FORMAT (resolve_data_type (conf_data_type config)))
    = spec_word_count (resolve_data_type (conf_data_type config)).
Proof.
  unfold struct_validator.
  destruct (legality_checks config) as [[]|e]; [|done]. simpl.
  destruct (resolve_data_type (conf_data_type config));
    intros Hv Hcustom Hstring; try done; by injection Hv as <-.
Qed.


(** C3, amended: the configuration errors of the legality matrix (a
    parameter missing though demanded, a parameter or a swap mode illegal
    with the data type) are raised exactly when the matrix is violated,
    and for a data type other than CUSTOM no other configuration error is
    raised. *)
Theorem struct_validator_schema_violation (config : Config) :
  swap_modes_distinct →
  ((∃ m, struct_validator config = Raise (Invalid m) ∧ schema_violation m)
   ↔ matrix_violated config)
  ∧ (resolve_data_type (conf_data_type config) ≠ CUSTOM →
     ((∃ m, struct_validator config = Raise (Invalid m)) ↔ matrix_violated config)).
Proof.
  intros Hd. rewrite <- (legality_checks_invalid _ Hd).
  destruct (legality_checks config) as [[]|e] eqn:Hl.
  - split.
    + split; [|by intros [? ?]]. intros (m & Hm & Hs). exfalso.
      destruct (decide (resolve_data_type (conf_data_type config) = CUSTOM)) as [Hdt|Hdt].
      * rewrite (struct_validator_custom _ Hl Hdt) in Hm.
        destruct (check_custom _ _ _) as [[]|e] eqn:Hc; [done|].
        simpl in Hm. injection Hm as ->. by apply check_custom_raise in Hc.
      * destruct (struct_validator_fixed _ Hl Hdt) as [config' Hok]. congruence.
    + intros Hdt. destruct (struct_validator_fixed _ Hl Hdt) as [config' ->].
      split; by intros [? ?].
  - rewrite (struct_validator_legality _ _ Hl). split.
    + split.
      * intros (m & [= ->] & _). eauto.
      * intros [m [= ->]]. exists m. split; [done|].
        by apply (legality_checks_raise config).
    + intros _. split; intros [m [= ->]]; by exists m.
Qed.

(** C4, amended: a validated declaration that is not CUSTOM is returned
    with the structure [>] followed by the format tag of its type, the
    tag being preceded by the repeat count (slave count + 1) when a slave
    count is present and is not 0. *)
Theorem struct_validator_structure (config config' : Config) :
  struct_validator config = Ok config' →
  resolve_data_type (conf_data_type config) ≠ CUSTOM →
  conf_structure config'
  = Some (match get_slave_count config with
          | Some n =>
              if decide (n = 0)
              then ">" +:+ struct_id (DEFAULT_STRUCT_FORMAT
                                        (resolve_data_type (conf_data_type config)))
              else ">" +:+ str_int (n + 1)
                   +:+ struct_id (DEFAULT_STRUCT_FORMAT
                                    (resolve_data_type (conf_data_type config)))
          | None =>
              ">" +:+ struct_id (DEFAULT_STRUCT_FORMAT
                                   (resolve_data_type (conf_data_type config)))
          end).
Proof.
  unfold struct_validator.
  destruct (legality_checks config) as [[]|e]; [|done]. simpl.
  assert (∀ n : Z, negb (n =? 0) = if decide (n = 0) then false else true) as Hz.
  { intros n. destruct (Z.eqb_spec n 0); by case_decide. }
  destruct (resolve_data_type (conf_data_type config));
    intros Hv Hcustom; try done; injection Hv as <-; simpl;
    destruct (get_slave_count config) as [n|]; try done;
    rewrite Hz; by case_decide.
Qed.

(** C10, amended: a declaration whose swap is present, truthy and not one
    of the three mapped values, and whose count, structure and slave count
    pass the legality matrix, makes the validator raise the KeyError of
    the dictionary lookup. *)
Theorem struct_validator_unmapped_swap (config : Config) (swap_type : string) :
  conf_swap config = Some swap_type →
  swap_type ≠ "" →
  swap_type ≠ CONF_SWAP_BYTE →
  swap_type ≠ CONF_SWAP_WORD →
  swap_type ≠ CONF_SWAP_WORD_BYTE →
  parameter_checks config = Ok () →
  struct_validator config = Raise (KeyError swap_type).
Proof.
  intros Hswap Hne Hb Hw Hwb Hp.
  apply struct_validator_legality. unfold legality_checks. rewrite Hp, Hswap.
  assert (∀ name dt validator,
            check_swap name dt validator (Some swap_type)
            = Raise (KeyError swap_type)) as Hcheck.
  { intros name dt validator. unfold check_swap.
    apply truthy_str_Some in Hne as ->.
    unfold swap_type_validators.
    by rewrite !lookup_insert_ne, lookup_empty. }
  apply Hcheck.
Qed.

End struct_validator_claims.

(** C1 at an INT32 register replicated once: the count becomes 2. *)
Lemma struct_validator_count_witness :
  @struct_validator example_const
     (example_register (Member INT32) None None (Some 1) None)
  = Ok (example_register (Member INT32) (Some 2) (Some ">2i") (Some 1) None)
  ∧ resolve_data_type (Member INT32) ≠ CUSTOM
  ∧ resolve_data_type (Member INT32) ≠ STRING
  ∧ conf_count (example_register (Member INT32) (Some 2) (Some ">2i") (Some 1) None)
    = Some 2.
Proof.
  assert (@struct_validator example_const
            (example_register (Member INT32) None None (Some 1) None)
          = Ok (example_register (Member INT32) (Some 2) (Some ">2i") (Some 1) None))
    as Hv by reflexivity.
  assert (resolve_data_type (Member INT32) ≠ CUSTOM) as Hc by discriminate.
  assert (resolve_data_type (Member INT32) ≠ STRING) as Hs by discriminate.
  split; [exact Hv|]. split; [exact Hc|]. split; [exact Hs|].
  exact (proj1 (@struct_validator_count example_const _ _ Hv Hc Hs)).
Defined.


(** C2: a CUSTOM declaration of one register whose structure is [>]
    followed by the letter e with an acute accent (the code point 233)
    passes the legality checks, and its validation raises neither the
    structure-format error nor the size error: the UnicodeEncodeError of
    [struct.calcsize] is no [struct.error] and goes through the handler. *)
Theorem struct_validator_custom_not_ascii :
  @legality_checks example_const
     (example_register (Member CUSTOM) (Some 1)
        (Some (String ">" (String (ascii_of_nat 233) EmptyString))) None None)
  = Ok ()
  ∧ @struct_validator example_const
      (example_register (Member CUSTOM) (Some 1)
         (Some (String ">" (String (ascii_of_nat 233) EmptyString))) None None)
    = Raise UnicodeEncodeError.
Proof. split; reflexivity. Qed.

Lemma example_swap_modes_distinct : @swap_modes_distinct example_const.
Proof. repeat split; discriminate. Defined.

(** The claim C3 as it is written: a configuration error of any kind
    exactly when the matrix is violated. A CUSTOM declaration of count 3
    with the structure [>2h] violates nothing and is refused for its
    size. *)
Lemma struct_validator_invalid_without_violation :
  ¬ (∀ config : Config,
       (∃ m, @struct_validator example_const config = Raise (Invalid m))
       ↔ @matrix_violated example_const config).
Proof.
  intros Hclaim.
  destruct (Hclaim (example_register (Member CUSTOM) (Some 3) (Some ">2h") None None))
    as [Hviolated _].
  destruct Hviolated as [Hv|[Hv|[Hv|Hv]]].
  - by exists (Structure_size "register" 4 3 6).
  - by destruct Hv as [[[=] _]|[_ [=]]].
  - by destruct Hv as [[[=] _]|[_ [=]]].
  - by destruct Hv as [[_ [=]]|[Hne _]].
  - by destruct Hv as (st & [=] & _).
Qed.

(** C3, amended, on the examples of the claim: a structure on INT16 and
    a STRING without count are refused, the swap WORD is refused on
    STRING, the swap BYTE is accepted on INT32. *)
Lemma struct_validator_schema_violation_witness :
  @swap_modes_distinct example_const
  ∧ (∃ m, @struct_validator example_const
            (example_register (Member INT16) None (Some ">h") None None)
          = Raise (Invalid m))
  ∧ (∃ m, @struct_validator example_const
            (example_register (Member STRING) None None None None)
          = Raise (Invalid m))
  ∧ (∃ m, @struct_validator example_const
            (example_register (Member STRING) (Some 4) None None (Some "word"))
          = Raise (Invalid m))
  ∧ ¬ (∃ m, @struct_validator example_const
              (example_register (Member INT32) None None None (Some "byte"))
            = Raise (Invalid m)).
Proof.
  split; [exact example_swap_modes_distinct|].
  split; [|split; [|split]].
  - apply (proj2 (@struct_validator_schema_violation example_const _
                    example_swap_modes_distinct)); [discriminate|].
    right; left. right. split; [discriminate|reflexivity].
  - apply (proj2 (@struct_validator_schema_violation example_const _
                    example_swap_modes_distinct)); [discriminate|].
    left. left. split; reflexivity.
  - apply (proj2 (@struct_validator_schema_violation example_const _
                    example_swap_modes_distinct)); [discriminate|].
    right; right; right. exists "word". split; reflexivity.
  - intros Hm.
    apply (proj2 (@struct_validator_schema_violation example_const _
                    example_swap_modes_distinct)) in Hm; [|discriminate].
    destruct Hm as [Hv|[Hv|[Hv|Hv]]].
    + by destruct Hv as [[_ [=]]|[[] _]].
    + by destruct Hv as [[_ [=]]|[[] _]].
    + by destruct Hv as [[_ [=]]|[[] _]].
    + by destruct Hv as (st & [= <-] & [=]).
Defined.

(** The claim C4 as it is written fails at a slave count of 0: the code
    returns [>h], the claim asks for [>1h]. *)
Lemma struct_validator_structure_slave_count_0 :
  ¬ (∀ config config' : Config,
       @struct_validator example_const config = Ok config' →
       resolve_data_type (conf_data_type config) ≠ CUSTOM →
       conf_structure config' = Some (claimed_structure config)).
Proof.
  intros Hclaim.
  specialize (Hclaim (example_register (Member INT16) None None (Some 0) None)
                (example_register (Member INT16) (Some 1) (Some ">h") (Some 0) None)
                eq_refl).
  by specialize (Hclaim ltac:(discriminate)).
Qed.

(** C4, amended, at INT16 with a slave count of 2: the structure is
    [>3h]. *)
Lemma struct_validator_structure_witness :
  @struct_validator example_const
     (example_register (Member INT16) None None (Some 2) None)
  = Ok (example_register (Member INT16) (Some 1) (Some ">3h") (Some 2) None)
  ∧ resolve_data_type (Member INT16) ≠ CUSTOM
  ∧ conf_structure (example_register (Member INT16) (Some 1) (Some ">3h") (Some 2) None)
    = Some ">3h".
Proof.
  assert (@struct_validator example_const
            (example_register (Member INT16) None None (Some 2) None)
          = Ok (example_register (Member INT16) (Some 1) (Some ">3h") (Some 2) None))
    as Hv by reflexivity.
  assert (resolve_data_type (Member INT16) ≠ CUSTOM) as Hc by discriminate.
  split; [exact Hv|]. split; [exact Hc|].
  exact (@struct_validator_structure example_const _ _ Hv Hc).
Defined.

(** The claim C10 as it is written fails when a parameter is illegal: the
    parameter loop raises its configuration error before the swap is
    looked up. *)
Lemma struct_validator_unmapped_swap_after_parameters :
  ¬ (∀ (config : Config) (swap_type : string),
       conf_swap config = Some swap_type →
       swap_type ≠ "" →
       swap_type ≠ @CONF_SWAP_BYTE example_const →
       swap_type ≠ @CONF_SWAP_WORD example_const →
       swap_type ≠ @CONF_SWAP_WORD_BYTE example_const →
       @struct_validator example_const config = Raise (KeyError swap_type)).
Proof.
  intros Hclaim.
  by specialize (Hclaim (example_register (Member INT16) (Some 1) None None (Some "none"))
                   "none" eq_refl ltac:(discriminate) ltac:(discriminate)
                   ltac:(discriminate) ltac:(discriminate)).
Qed.

(** C10, amended, at an INT16 register with the swap ["none"]. *)
Lemma struct_validator_unmapped_swap_witness :
  @parameter_checks
     (example_register (Member INT16) None None None (Some "none")) = Ok ()
  ∧ @struct_validator example_const
      (example_register (Member INT16) None None None (Some "none"))
    = Raise (KeyError "none").
Proof.
  split; [reflexivity|].
  apply (@struct_validator_unmapped_swap example_const _ "none");
    [reflexivity|discriminate|discriminate|discriminate|discriminate|reflexivity].
Defined.

(** ** Numeric coercers *)

Section coercer_claims.
Context `{Float}.




End coercer_claims.

(** ** Duplicate resolver for hubs *)

Lemma str_int_inj (x y : Z) : str_int x = str_int y → x = y.
Proof.
  unfold str_int. intros Heq.
  apply (f_equal NilEmpty.int_of_string) in Heq.
  rewrite !NilEmpty.isi in Heq. injection Heq as Heq.
  apply (f_equal Z.of_int) in Heq. by rewrite !DecimalZ.of_to in Heq.
Qed.

Section hub_facts.
Context `{Const}.

Lemma hub_step_errors (index : nat) (hub : Hub) (st : hub_scan) :
  h_errors (hub_step index hub st)
  = if hub_rejected st hub then h_errors st ++ [index] else h_errors st.
Proof.
  unfold hub_step, hub_rejected. by repeat case_bool_decide.
Qed.

Lemma hub_deletions_in_range (config : list Hub) :
  deletable (reverse (h_errors (hub_state config))) config.
Proof.
  by apply (marked_deletable hub_step h_errors hub_rejected hub_step_errors).
Qed.

Lemma hub_state_snoc (config : list Hub) (hub : Hub) :
  hub_state (config ++ [hub]) = hub_step (length config) hub (hub_state config).
Proof. unfold hub_state. by rewrite for_enumerate_snoc. Qed.

Lemma hub_survivors_snoc (config : list Hub) (hub : Hub) :
  (duplicate_modbus_validator (config ++ [hub])).1
  = (duplicate_modbus_validator config).1
    ++ (if hub_rejected (hub_state config) hub then [] else [hub]).
Proof.
  unfold duplicate_modbus_validator. simpl.
  by apply (marked_deletion_snoc hub_step h_errors hub_rejected hub_step_errors).
Qed.

Lemma hub_state_sets (config : list Hub) :
  h_hosts (hub_state config) = hub_keys_of (duplicate_modbus_validator config).1
  ∧ h_names (hub_state config) = hub_names_of (duplicate_modbus_validator config).1.
Proof.
  induction config as [|hub config [IHhosts IHnames]] using rev_ind; [done|].
  rewrite hub_state_snoc, hub_survivors_snoc.
  remember (duplicate_modbus_validator config).1 as survivors.
  unfold hub_step, hub_rejected.
  repeat case_bool_decide; simpl; rewrite ?app_nil_r; try done.
  unfold hub_keys_of, hub_names_of in *.
  rewrite !fmap_app, !list_to_set_app_L, <- IHhosts, <- IHnames. simpl.
  split; by rewrite (comm_L (∪)), union_empty_r_L.
Qed.

Lemma hub_rejected_spec (config : list Hub) (hub : Hub) :
  hub_rejected (hub_state config) hub
  = bool_decide (hub_key hub ∈ hub_keys_of (duplicate_modbus_validator config).1
                 ∨ get_hub_name hub ∈ hub_names_of (duplicate_modbus_validator config).1).
Proof.
  destruct (hub_state_sets config) as [<- <-]. unfold hub_rejected.
  repeat case_bool_decide; simpl; tauto.
Qed.

Lemma hub_warnings_snoc (config : list Hub) (hub : Hub) :
  (duplicate_modbus_validator (config ++ [hub])).2
  = (duplicate_modbus_validator config).2
    ++ (if decide (hub_key hub ∈ hub_keys_of (duplicate_modbus_validator config).1)
        then [Duplicate_host_port (get_hub_name hub) (hub_key hub)]
        else if decide (get_hub_name hub
                        ∈ hub_names_of (duplicate_modbus_validator config).1)
             then [Duplicate_name (get_hub_name hub)]
             else []).
Proof.
  destruct (hub_state_sets config) as [<- <-].
  unfold duplicate_modbus_validator. simpl.
  fold (hub_state (config ++ [hub])). fold (hub_state config).
  rewrite hub_state_snoc. unfold hub_step.
  repeat case_bool_decide; repeat case_decide; simpl; try done.
  by rewrite app_nil_r.
Qed.

Lemma hub_survivors_sublist (config : list Hub) :
  (duplicate_modbus_validator config).1 `sublist_of` config.
Proof.
  induction config as [|hub config IH] using rev_ind; [done|].
  rewrite hub_survivors_snoc. apply sublist_app; [done|].
  destruct (hub_rejected _ _); [apply sublist_nil_l|done].
Qed.

Lemma hub_survivors_pairwise (config : list Hub) :
  pairwise (λ a b, hub_key a ≠ hub_key b ∧ get_hub_name a ≠ get_hub_name b)
    (duplicate_modbus_validator config).1.
Proof.
  induction config as [|hub config IH] using rev_ind; [apply pairwise_nil|].
  rewrite hub_survivors_snoc, hub_rejected_spec.
  case_bool_decide as Hrej; [by rewrite app_nil_r|].
  apply pairwise_snoc; [done|]. intros a Ha.
  unfold hub_keys_of, hub_names_of in Hrej.
  split; intros Heq; apply Hrej; [left|right];
    rewrite elem_of_list_to_set, <- Heq; by apply list_elem_of_fmap_2.
Qed.

(** Running the resolver on its own result removes nothing and warns of
    nothing. *)
Lemma duplicate_modbus_validator_idempotent (config : list Hub) :
  duplicate_modbus_validator (duplicate_modbus_validator config).1
  = ((duplicate_modbus_validator config).1, []).
Proof.
  induction config as [|hub config IH] using rev_ind; [done|].
  rewrite hub_survivors_snoc, hub_rejected_spec.
  case_bool_decide as Hrej; [by rewrite app_nil_r|].
  apply injective_projections.
  - rewrite hub_survivors_snoc, hub_rejected_spec, IH. simpl.
    by rewrite bool_decide_eq_false_2.
  - rewrite hub_warnings_snoc, IH. simpl. by repeat case_decide; try tauto.
Qed.

Lemma hub_single (hub : Hub) : duplicate_modbus_validator [hub] = ([hub], []).
Proof.
  change [hub] with ([] ++ [hub]) at 1. apply injective_projections.
  - rewrite (hub_survivors_snoc [] hub). unfold hub_rejected, hub_state.
    cbn [for_enumerate h_hosts h_names].
    by rewrite !bool_decide_eq_false_2 by apply not_elem_of_empty.
  - rewrite (hub_warnings_snoc [] hub).
    rewrite decide_False by apply not_elem_of_empty.
    by rewrite decide_False by apply not_elem_of_empty.
Qed.

Lemma hub_keys_of_single (h1 : Hub) (key : scalar) :
  key ∈ hub_keys_of [h1] ↔ key = hub_key h1.
Proof.
  unfold hub_keys_of. rewrite elem_of_list_to_set. cbn [fmap list_fmap].
  apply list_elem_of_singleton.
Qed.

Lemma hub_names_of_single (h1 : Hub) (name : string) :
  name ∈ hub_names_of [h1] ↔ name = get_hub_name h1.
Proof.
  unfold hub_names_of. rewrite elem_of_list_to_set. cbn [fmap list_fmap].
  apply list_elem_of_singleton.
Qed.

End hub_facts.

(** ** Duplicate resolver for entities *)

Lemma entity_step_errors (index : nat) (entry : Entity) (st : entity_scan) :
  e_errors (entity_step index entry st)
  = if entity_rejected st entry then e_errors st ++ [index] else e_errors st.
Proof.
  unfold entity_step, entity_rejected. by repeat case_bool_decide.
Qed.

Lemma entity_deletions_in_range (entries : list Entity) :
  deletable (reverse (e_errors (entity_state entries))) entries.
Proof.
  by apply (marked_deletable entity_step e_errors entity_rejected
              entity_step_errors).
Qed.

Lemma entity_state_snoc (entries : list Entity) (entry : Entity) :
  entity_state (entries ++ [entry])
  = entity_step (length entries) entry (entity_state entries).
Proof. unfold entity_state. by rewrite for_enumerate_snoc. Qed.

Lemma dedupe_entries_snoc (entries : list Entity) (entry : Entity) :
  dedupe_entries (entries ++ [entry])
  = dedupe_entries entries
    ++ (if entity_rejected (entity_state entries) entry then [] else [entry]).
Proof.
  unfold dedupe_entries.
  by apply (marked_deletion_snoc entity_step e_errors entity_rejected
              entity_step_errors).
Qed.

Lemma entity_state_sets (entries : list Entity) :
  e_addresses (entity_state entries) = keys_of (dedupe_entries entries)
  ∧ e_names (entity_state entries) = names_of (dedupe_entries entries).
Proof.
  induction entries as [|entry entries [IHaddrs IHnames]] using rev_ind; [done|].
  rewrite entity_state_snoc, dedupe_entries_snoc.
  remember (dedupe_entries entries) as survivors.
  unfold entity_step, entity_rejected.
  repeat case_bool_decide; simpl; rewrite ?app_nil_r; try done.
  unfold keys_of, names_of in *.
  rewrite !fmap_app, list_to_set_app_L, union_list_app_L, <- IHaddrs, <- IHnames.
  simpl. split.
  - by rewrite union_empty_r_L.
  - by rewrite (comm_L (∪)), union_empty_r_L.
Qed.

Lemma intersection_size_pos (X Y : gset string) :
  (0 < size (X ∩ Y))%nat ↔ ¬ X ## Y.
Proof.
  rewrite disjoint_intersection, <- size_empty_iff. lia.
Qed.

Lemma entity_rejected_spec (entries : list Entity) (entry : Entity) :
  entity_rejected (entity_state entries) entry
  = negb (bool_decide (entity_addrs entry ## keys_of (dedupe_entries entries)
                       ∧ ent_name entry ∉ names_of (dedupe_entries entries))).
Proof.
  destruct (entity_state_sets entries) as [<- <-]. unfold entity_rejected.
  repeat case_bool_decide; simpl; try done;
    rewrite intersection_size_pos in *; tauto.
Qed.

Lemma dedupe_entries_sublist (entries : list Entity) :
  dedupe_entries entries `sublist_of` entries.
Proof.
  induction entries as [|entry entries IH] using rev_ind; [done|].
  rewrite dedupe_entries_snoc. apply sublist_app; [done|].
  destruct (entity_rejected _ _); [apply sublist_nil_l|done].
Qed.

Lemma elem_of_secondary_addr (register : option Z) (inx : Z) (key : string) :
  key ∈ secondary_addr register inx
  ↔ ∃ a, register = Some a ∧ key = str_int a +:+ "_" +:+ str_int inx.
Proof.
  destruct register as [a|]; simpl.
  - rewrite elem_of_singleton. split; [intros ->; by exists a|].
    by intros (a' & [= <-] & ->).
  - rewrite elem_of_empty. split; [done|]. by intros (a & [=] & _).
Qed.

Lemma keys_of_elem (entries : list Entity) (entry : Entity) (key : string) :
  entry ∈ entries → key ∈ entity_addrs entry → key ∈ keys_of entries.
Proof.
  intros Hin Hkey. unfold keys_of. apply elem_of_union_list.
  exists (entity_addrs entry). split; [by apply list_elem_of_fmap_2|done].
Qed.

Lemma dedupe_entries_pairwise (entries : list Entity) :
  pairwise (λ a b, entity_addrs a ## entity_addrs b ∧ ent_name a ≠ ent_name b)
    (dedupe_entries entries).
Proof.
  induction entries as [|entry entries IH] using rev_ind; [apply pairwise_nil|].
  rewrite dedupe_entries_snoc, entity_rejected_spec.
  case_bool_decide as Hacc; simpl; [|by rewrite app_nil_r].
  destruct Hacc as [Hkeys Hname].
  apply pairwise_snoc; [done|]. intros a Ha. split.
  - intros key Hka Hkentry. apply (Hkeys key Hkentry).
    by apply (keys_of_elem _ a).
  - intros Heq. apply Hname. unfold names_of.
    rewrite elem_of_list_to_set, <- Heq. by apply list_elem_of_fmap_2.
Qed.

Lemma dedupe_entries_idempotent (entries : list Entity) :
  dedupe_entries (dedupe_entries entries) = dedupe_entries entries.
Proof.
  induction entries as [|entry entries IH] using rev_ind; [done|].
  rewrite dedupe_entries_snoc, entity_rejected_spec.
  case_bool_decide as Hacc; simpl; [|by rewrite app_nil_r].
  rewrite dedupe_entries_snoc, entity_rejected_spec, IH.
  by rewrite bool_decide_eq_true_2.
Qed.

Lemma hub_eq (a b : Hub) :
  hub_name a = hub_name b → hub_type a = hub_type b → hub_host a = hub_host b →
  hub_port a = hub_port b → hub_timeout a = hub_timeout b →
  hub_entities a = hub_entities b → a = b.
Proof. destruct a, b; simpl; by intros -> -> -> -> -> ->. Qed.

Section entity_platform_facts.
Context `{Const}.

Lemma dedupe_platform_fields (hub : Hub) (platform : string * string) :
  hub_name (dedupe_platform hub platform) = hub_name hub
  ∧ hub_type (dedupe_platform hub platform) = hub_type hub
  ∧ hub_host (dedupe_platform hub platform) = hub_host hub
  ∧ hub_port (dedupe_platform hub platform) = hub_port hub
  ∧ hub_timeout (dedupe_platform hub platform) = hub_timeout hub.
Proof.
  unfold dedupe_platform. destruct platform as [component conf_key].
  by destruct (hub_entities hub !! conf_key).
Qed.

Lemma dedupe_platforms_fields (platforms : list (string * string)) (hub : Hub) :
  hub_name (foldl dedupe_platform hub platforms) = hub_name hub
  ∧ hub_type (foldl dedupe_platform hub platforms) = hub_type hub
  ∧ hub_host (foldl dedupe_platform hub platforms) = hub_host hub
  ∧ hub_port (foldl dedupe_platform hub platforms) = hub_port hub
  ∧ hub_timeout (foldl dedupe_platform hub platforms) = hub_timeout hub.
Proof.
  induction platforms as [|platform platforms IH] using rev_ind; [done|].
  rewrite foldl_snoc.
  destruct (dedupe_platform_fields (foldl dedupe_platform hub platforms) platform)
    as (-> & -> & -> & -> & ->).
  exact IH.
Qed.

Lemma dedupe_platform_lookup (hub : Hub) (component conf_key key : string) :
  hub_entities (dedupe_platform hub (component, conf_key)) !! key
  = if decide (key = conf_key) then dedupe_entries <$> hub_entities hub !! key
    else hub_entities hub !! key.
Proof.
  unfold dedupe_platform.
  destruct (hub_entities hub !! conf_key) as [entries|] eqn:Hlookup;
    case_decide as Hkey; subst; simpl.
  - by rewrite lookup_insert_eq, Hlookup.
  - by rewrite lookup_insert_ne.
  - by rewrite Hlookup.
  - done.
Qed.

(** After the loop over the platforms, the lists under their keys are
    resolved and the others are as they were. *)
Lemma dedupe_platforms_lookup (platforms : list (string * string)) (hub : Hub)
    (key : string) :
  hub_entities (foldl dedupe_platform hub platforms) !! key
  = if decide (key ∈ platforms.*2) then dedupe_entries <$> hub_entities hub !! key
    else hub_entities hub !! key.
Proof.
  induction platforms as [|[component conf_key] platforms IH] using rev_ind;
    [done|].
  rewrite foldl_snoc, fmap_app, dedupe_platform_lookup, IH. simpl.
  destruct (decide (key = conf_key)) as [->|Hne].
  - rewrite (decide_True (P := conf_key ∈ platforms.*2 ++ [conf_key]))
      by (apply elem_of_app; right; by apply list_elem_of_singleton).
    case_decide; [|done].
    destruct (hub_entities hub !! conf_key); [|done]. simpl.
    by rewrite dedupe_entries_idempotent.
  - repeat case_decide; try done; exfalso;
      rewrite elem_of_app, list_elem_of_singleton in *; tauto.
Qed.

Lemma duplicate_entity_validator_lookup (config : list Hub) (i : nat) :
  duplicate_entity_validator config !! i
  = (λ hub, foldl dedupe_platform hub PLATFORMS) <$> config !! i.
Proof. unfold duplicate_entity_validator. apply list_lookup_fmap. Qed.

Lemma dedupe_platforms_idempotent (hub : Hub) :
  foldl dedupe_platform (foldl dedupe_platform hub PLATFORMS) PLATFORMS
  = foldl dedupe_platform hub PLATFORMS.
Proof.
  destruct (dedupe_platforms_fields PLATFORMS (foldl dedupe_platform hub PLATFORMS))
    as (? & ? & ? & ? & ?).
  apply hub_eq; try done.
  apply map_eq. intros key. rewrite dedupe_platforms_lookup.
  case_decide as Hin; [|done].
  rewrite dedupe_platforms_lookup. rewrite decide_True by done.
  destruct (hub_entities hub !! key); [|done]. simpl.
  by rewrite dedupe_entries_idempotent.
Qed.

End entity_platform_facts.

(** ** Duplicate resolver for mode values *)

Lemma dict_del_snoc_ne (key k : string) (v : Z) (d : list (string * Z)) :
  key ≠ k → dict_del key (d ++ [(k, v)]) = dict_del key d ++ [(k, v)].
Proof.
  intros Hne. induction d as [|[k' v'] d IH]; simpl.
  - destruct (String.eqb_spec k key); [congruence|done].
  - destruct (String.eqb_spec k' key); [done|]. by rewrite IH.
Qed.

Lemma dict_del_snoc_eq (k : string) (v : Z) (d : list (string * Z)) :
  k ∉ d.*1 → dict_del k (d ++ [(k, v)]) = d.
Proof.
  induction d as [|[k' v'] d IH]; simpl; intros Hnotin.
  - by rewrite String.eqb_refl.
  - apply not_elem_of_cons in Hnotin as [Hne Hnotin].
    destruct (String.eqb_spec k' k); [congruence|]. by rewrite IH.
Qed.

Lemma foldl_dict_del_snoc (keys : list string) (k : string) (v : Z)
    (d : list (string * Z)) :
  Forall (λ key, key ≠ k) keys →
  foldl (λ d key, dict_del key d) (d ++ [(k, v)]) keys
  = foldl (λ d key, dict_del key d) d keys ++ [(k, v)].
Proof.
  intros Hkeys. revert d. induction Hkeys as [|key keys Hne _ IH]; intros d; [done|].
  simpl. rewrite dict_del_snoc_ne by done. apply IH.
Qed.

Lemma fan_state_snoc (items : list (string * Z)) (item : string * Z) :
  fan_state (items ++ [item]) = fan_step (fan_state items) item.
Proof. unfold fan_state. apply foldl_snoc. Qed.

Lemma fan_errors_keys (items : list (string * Z)) :
  Forall (λ key, key ∈ items.*1) (f_errors (fan_state items)).
Proof.
  induction items as [|[k v] items IH] using rev_ind; [by constructor|].
  rewrite fan_state_snoc, fmap_app. unfold fan_step.
  assert (Forall (λ key, key ∈ items.*1 ++ [(k, v)].*1) (f_errors (fan_state items)))
    as Hold.
  { eapply Forall_impl; [exact IH|]. intros key Hkey. apply elem_of_app. by left. }
  case_bool_decide; simpl; [|done].
  apply Forall_app. split; [done|]. constructor; [|constructor].
  apply elem_of_app. right. by left.
Qed.

Lemma dedupe_fan_modes_snoc (items : list (string * Z)) (k : string) (v : Z) :
  NoDup (items ++ [(k, v)]).*1 →
  dedupe_fan_modes (items ++ [(k, v)])
  = dedupe_fan_modes items
    ++ (if bool_decide (v ∈ f_fan_modes (fan_state items)) then [] else [(k, v)]).
Proof.
  rewrite fmap_app. intros Hnodup. apply NoDup_app in Hnodup as (_ & Hfresh & _).
  assert (k ∉ items.*1) as Hk.
  { intros Hin. apply (Hfresh k Hin). by left. }
  unfold dedupe_fan_modes. fold (fan_state (items ++ [(k, v)])).
  fold (fan_state items). rewrite fan_state_snoc. unfold fan_step.
  case_bool_decide; simpl.
  - rewrite reverse_snoc. simpl. rewrite dict_del_snoc_eq by done.
    by rewrite app_nil_r.
  - apply foldl_dict_del_snoc. apply Forall_reverse.
    eapply Forall_impl; [apply fan_errors_keys|].
    intros key Hkey ->. by apply Hk.
Qed.

Lemma dict_deletable_snoc (keys : list string) (k : string) (v : Z)
    (d : list (string * Z)) :
  Forall (λ key, key ≠ k) keys →
  dict_deletable keys d → dict_deletable keys (d ++ [(k, v)]).
Proof.
  intros Hkeys. revert d.
  induction Hkeys as [|key keys Hne _ IH]; intros d; [done|].
  simpl. intros [Hin Hrest]. split.
  - rewrite fmap_app. apply elem_of_app. by left.
  - rewrite dict_del_snoc_ne by done. by apply IH.
Qed.

(** Every deletion finds its key. *)
Lemma fan_deletions_found (items : list (string * Z)) :
  NoDup items.*1 → dict_deletable (reverse (f_errors (fan_state items))) items.
Proof.
  induction items as [|[k v] items IH] using rev_ind; intros Hnodup; [done|].
  pose proof Hnodup as Hnodup'. rewrite fmap_app in Hnodup'.
  apply NoDup_app in Hnodup' as (Hitems & Hfresh & _).
  assert (k ∉ items.*1) as Hk.
  { intros Hin. apply (Hfresh k Hin). by left. }
  rewrite fan_state_snoc. unfold fan_step. case_bool_decide; simpl.
  - rewrite reverse_snoc. simpl. split.
    + rewrite fmap_app. apply elem_of_app. right. by left.
    + rewrite dict_del_snoc_eq by done. by apply IH.
  - apply dict_deletable_snoc; [|by apply IH].
    apply Forall_reverse. eapply Forall_impl; [apply fan_errors_keys|].
    intros key Hkey ->. by apply Hk.
Qed.

Lemma NoDup_snoc_keys (items : list (string * Z)) (item : string * Z) :
  NoDup (items ++ [item]).*1 → NoDup items.*1.
Proof. rewrite fmap_app. intros Hnodup. by apply NoDup_app in Hnodup as (? & _). Qed.

Lemma fan_state_values (items : list (string * Z)) :
  NoDup items.*1 →
  f_fan_modes (fan_state items) = values_of (dedupe_fan_modes items).
Proof.
  induction items as [|[k v] items IH] using rev_ind; intros Hnodup; [done|].
  rewrite dedupe_fan_modes_snoc by done.
  rewrite fan_state_snoc. specialize (IH (NoDup_snoc_keys _ _ Hnodup)).
  unfold fan_step. case_bool_decide; simpl; [by rewrite app_nil_r|].
  unfold values_of in *. rewrite fmap_app, list_to_set_app_L, <- IH. simpl.
  by rewrite (comm_L (∪)), union_empty_r_L.
Qed.

Lemma dedupe_fan_modes_sublist (items : list (string * Z)) :
  NoDup items.*1 → dedupe_fan_modes items `sublist_of` items.
Proof.
  induction items as [|[k v] items IH] using rev_ind; intros Hnodup; [done|].
  rewrite dedupe_fan_modes_snoc by done.
  apply sublist_app; [apply IH; by eapply NoDup_snoc_keys|].
  case_bool_decide; [apply sublist_nil_l|done].
Qed.

Lemma dedupe_fan_modes_NoDup (items : list (string * Z)) :
  NoDup items.*1 → NoDup (dedupe_fan_modes items).*1.
Proof.
  intros Hnodup. eapply sublist_NoDup; [exact Hnodup|].
  by apply fmap_sublist, dedupe_fan_modes_sublist.
Qed.

Lemma dedupe_fan_modes_idempotent (items : list (string * Z)) :
  NoDup items.*1 →
  dedupe_fan_modes (dedupe_fan_modes items) = dedupe_fan_modes items.
Proof.
  induction items as [|[k v] items IH] using rev_ind; intros Hnodup; [done|].
  pose proof (NoDup_snoc_keys _ _ Hnodup) as Hnodup'.
  pose proof (dedupe_fan_modes_NoDup _ Hnodup) as Hresult.
  rewrite dedupe_fan_modes_snoc in Hresult |- * by done.
  rewrite fan_state_values in Hresult |- * by done.
  case_bool_decide as Hseen; [rewrite !app_nil_r; by apply IH|].
  rewrite dedupe_fan_modes_snoc by done.
  rewrite fan_state_values by by apply dedupe_fan_modes_NoDup.
  rewrite (IH Hnodup'). by rewrite bool_decide_eq_false_2.
Qed.

Section resolver_claims.
Context `{Const}.

(** C6: the validator replaces every platform list of every hub by the
    list of its survivors and touches nothing else. The survivors are
    built entry by entry in the original order: an entry survives exactly
    when its key set is disjoint from the keys of the survivors before it
    and its name is not one of theirs, so a removed entry leaves no key
    behind. Any two survivors have disjoint key sets and different names.
    The key set is the primary key and the keys of the target-temperature,
    HVAC-mode and fan-mode registers, each ending in the device index. *)
Theorem duplicate_entity_validator_survivors :
  (∀ (config : list Hub) (i : nat) (hub : Hub),
     config !! i = Some hub →
     ∃ hub',
       duplicate_entity_validator config !! i = Some hub'
       ∧ hub_name hub' = hub_name hub ∧ hub_type hub' = hub_type hub
       ∧ hub_host hub' = hub_host hub ∧ hub_port hub' = hub_port hub
       ∧ hub_timeout hub' = hub_timeout hub
       ∧ ∀ key,
           hub_entities hub' !! key
           = if decide (key ∈ PLATFORMS.*2)
             then dedupe_entries <$> hub_entities hub !! key
             else hub_entities hub !! key)
  ∧ (∀ config : list Hub,
       length (duplicate_entity_validator config) = length config)
  ∧ dedupe_entries [] = []
  ∧ (∀ (entries : list Entity) (entry : Entity),
       dedupe_entries (entries ++ [entry])
       = dedupe_entries entries
         ++ (if decide (entity_addrs entry ## keys_of (dedupe_entries entries)
                        ∧ ent_name entry ∉ names_of (dedupe_entries entries))
             then [entry] else []))
  ∧ (∀ entries : list Entity,
       pairwise (λ a b, entity_addrs a ## entity_addrs b ∧ ent_name a ≠ ent_name b)
         (dedupe_entries entries))
  ∧ (∀ entries : list Entity, dedupe_entries entries `sublist_of` entries)
  ∧ (∀ (entry : Entity) (key : string),
       key ∈ entity_addrs entry
       ↔ key = entity_addr entry
         ∨ ∃ a, (ent_target_temp entry = Some a
                 ∨ ent_hvac_mode_register entry = Some a
                 ∨ ent_fan_mode_register entry = Some a)
                ∧ key = str_int a +:+ "_" +:+ str_int (entity_inx entry))
  ∧ (∀ entry : Entity,
       ∃ prefix, entity_addr entry = prefix +:+ "_" +:+ str_int (entity_inx entry)).
Proof.
  split_and!.
  - intros config i hub Hi.
    exists (foldl dedupe_platform hub PLATFORMS).
    rewrite duplicate_entity_validator_lookup, Hi.
    destruct (dedupe_platforms_fields PLATFORMS hub) as (? & ? & ? & ? & ?).
    split_and!; try done. intros key. apply dedupe_platforms_lookup.
  - intros config. unfold duplicate_entity_validator. apply length_fmap.
  - done.
  - intros entries entry. rewrite dedupe_entries_snoc, entity_rejected_spec.
    by case_bool_decide; case_decide.
  - apply dedupe_entries_pairwise.
  - apply dedupe_entries_sublist.
  - intros entry key. unfold entity_addrs.
    rewrite !elem_of_union, elem_of_singleton, !elem_of_secondary_addr. split.
    + intros [[[->|(a & ? & ?)]|(a & ? & ?)]|(a & ? & ?)];
        [by left|right; exists a; split; [tauto|done]..].
    + intros [->|(a & [?|[?|?]] & ->)];
        [by left; left; left|left; left; right; by exists a
        |left; right; by exists a|right; by exists a].
  - intros entry. unfold entity_addr. by eexists.
Qed.


(** C8: each of the three resolvers, run on its own result, returns it
    unchanged; the hub resolver then logs no warning. The mode values are
    a dictionary, so their keys are distinct. *)
Theorem resolvers_idempotent :
  (∀ config : list Hub,
     duplicate_entity_validator (duplicate_entity_validator config)
     = duplicate_entity_validator config)
  ∧ (∀ config : list Hub,
       duplicate_modbus_validator (duplicate_modbus_validator config).1
       = ((duplicate_modbus_validator config).1, []))
  ∧ (∀ config : FanConfig,
       NoDup (conf_fan_mode_values config).*1 →
       duplicate_fan_mode_validator (duplicate_fan_mode_validator config)
       = duplicate_fan_mode_validator config).
Proof.
  split_and!.
  - intros config. unfold duplicate_entity_validator.
    rewrite <- list_fmap_compose. apply list_fmap_ext.
    intros i hub _. apply dedupe_platforms_idempotent.
  - apply duplicate_modbus_validator_idempotent.
  - intros config Hnodup. unfold duplicate_fan_mode_validator. simpl.
    by rewrite dedupe_fan_modes_idempotent.
Qed.

End resolver_claims.

(** ** Timing normaliser *)

Section timing_facts.
Context `{Const}.

(** The loop over one list keeps the poll intervals and lowers the
    minimum to the least of them that is not 0. *)
Lemma scan_entries_spec (entries : list Entity) (m : Z) :
  get_scan_interval <$> (scan_entries entries m).1 = get_scan_interval <$> entries
  ∧ (scan_entries entries m).2 ≤ m
  ∧ (∀ entry, entry ∈ entries → get_scan_interval entry ≠ 0 →
       (scan_entries entries m).2 ≤ get_scan_interval entry)
  ∧ ((scan_entries entries m).2 = m
     ∨ ∃ entry, entry ∈ entries ∧ get_scan_interval entry ≠ 0
                ∧ (scan_entries entries m).2 = get_scan_interval entry).
Proof.
  revert m. induction entries as [|entry entries IH]; intros m; simpl.
  - split_and!; [done|lia| |by left]. intros entry Hin. by apply elem_of_nil in Hin.
  - unfold scan_entry.
    destruct (Z.eqb_spec (get_scan_interval entry) 0) as [Hzero|Hnonzero].
    + specialize (IH m). destruct (scan_entries entries m) as [entries' m'].
      simpl in *. destruct IH as (Hintervals & Hle & Hlower & Hattained).
      split_and!.
      * f_equal. exact Hintervals.
      * done.
      * intros e [->|Hin]%elem_of_cons Hne; [done|by apply Hlower].
      * destruct Hattained as [->|(e & Hin & Hne & ->)]; [by left|].
        right. exists e. split; [by right|done].
    + specialize (IH (Z.min (get_scan_interval entry) m)).
      destruct (scan_entries entries (Z.min (get_scan_interval entry) m))
        as [entries' m'].
      simpl in *. destruct IH as (Hintervals & Hle & Hlower & Hattained).
      split_and!.
      * f_equal. exact Hintervals.
      * lia.
      * intros e [->|Hin]%elem_of_cons Hne; [lia|by apply Hlower].
      * destruct Hattained as [->|(e & Hin & Hne & ->)].
        -- destruct (Z.min_spec (get_scan_interval entry) m) as [[_ ->]|[_ ->]];
             [|by left].
           right. exists entry. split; [by left|done].
        -- right. exists e. split; [by right|done].
Qed.

Lemma scan_platform_fields (hub : Hub) (m : Z) (platform : string * string) :
  hub_name (scan_platform (hub, m) platform).1 = hub_name hub
  ∧ hub_type (scan_platform (hub, m) platform).1 = hub_type hub
  ∧ hub_host (scan_platform (hub, m) platform).1 = hub_host hub
  ∧ hub_port (scan_platform (hub, m) platform).1 = hub_port hub
  ∧ hub_timeout (scan_platform (hub, m) platform).1 = hub_timeout hub.
Proof.
  unfold scan_platform. destruct platform as [component conf_key].
  destruct (hub_entities hub !! conf_key) as [entries|]; [|done].
  by destruct (scan_entries entries m).
Qed.

Lemma scan_platform_intervals (hub : Hub) (m : Z) (platform : string * string)
    (key : string) :
  intervals_at (scan_platform (hub, m) platform).1 key = intervals_at hub key.
Proof.
  unfold scan_platform, intervals_at. destruct platform as [component conf_key].
  destruct (hub_entities hub !! conf_key) as [entries|] eqn:Hlookup; [|done].
  pose proof (scan_entries_spec entries m) as (Hintervals & _).
  destruct (scan_entries entries m) as [entries' m']. simpl in *.
  destruct (decide (key = conf_key)) as [->|Hne].
  - rewrite lookup_insert_eq, Hlookup. by rewrite Hintervals.
  - by rewrite lookup_insert_ne.
Qed.

Lemma scan_entries_intervals (entries : list Entity) (m : Z) :
  (scan_entries entries m).2 ≤ m
  ∧ (∀ z, z ∈ get_scan_interval <$> entries → z ≠ 0 → (scan_entries entries m).2 ≤ z)
  ∧ ((scan_entries entries m).2 = m
     ∨ (scan_entries entries m).2 ∈ get_scan_interval <$> entries
       ∧ (scan_entries entries m).2 ≠ 0).
Proof.
  destruct (scan_entries_spec entries m) as (_ & Hle & Hlower & Hattained).
  split_and!; [done| |].
  - intros z (entry & -> & Hin)%list_elem_of_fmap. by apply Hlower.
  - destruct Hattained as [->|(entry & Hin & Hne & Heq)]; [by left|].
    right. rewrite Heq. split; [by apply list_elem_of_fmap_2|done].
Qed.

Lemma contained_interval_intervals (hub : Hub) (z : Z) :
  contained_interval hub z
  ↔ ∃ platform zs, platform ∈ PLATFORMS ∧ intervals_at hub platform.2 = Some zs
                   ∧ z ∈ zs ∧ z ≠ 0.
Proof.
  unfold contained_interval, intervals_at. split.
  - intros (platform & entries & entry & Hp & Hlookup & Hin & <- & Hne).
    exists platform, (get_scan_interval <$> entries). rewrite Hlookup.
    split_and!; [done|done| |done]. by apply list_elem_of_fmap_2.
  - intros (platform & zs & Hp & Hlookup & Hin & Hne).
    destruct (hub_entities hub !! platform.2) as [entries|] eqn:Hentries; [|done].
    injection Hlookup as <-.
    apply list_elem_of_fmap in Hin as (entry & -> & Hin).
    by exists platform, entries, entry.
Qed.

(** The loop over the platforms keeps the hub but for its poll intervals
    written back, and ends with the least of the starting minimum and of
    the non-zero poll intervals under the keys of the platforms. *)
Lemma scan_platforms_spec (platforms : list (string * string)) (hub : Hub) (m0 : Z) :
  (hub_name (foldl scan_platform (hub, m0) platforms).1 = hub_name hub
   ∧ hub_type (foldl scan_platform (hub, m0) platforms).1 = hub_type hub
   ∧ hub_host (foldl scan_platform (hub, m0) platforms).1 = hub_host hub
   ∧ hub_port (foldl scan_platform (hub, m0) platforms).1 = hub_port hub
   ∧ hub_timeout (foldl scan_platform (hub, m0) platforms).1 = hub_timeout hub)
  ∧ (∀ key, intervals_at (foldl scan_platform (hub, m0) platforms).1 key
            = intervals_at hub key)
  ∧ (foldl scan_platform (hub, m0) platforms).2 ≤ m0
  ∧ (∀ platform zs z,
       platform ∈ platforms → intervals_at hub platform.2 = Some zs →
       z ∈ zs → z ≠ 0 → (foldl scan_platform (hub, m0) platforms).2 ≤ z)
  ∧ ((foldl scan_platform (hub, m0) platforms).2 = m0
     ∨ ∃ platform zs,
         platform ∈ platforms ∧ intervals_at hub platform.2 = Some zs
         ∧ (foldl scan_platform (hub, m0) platforms).2 ∈ zs
         ∧ (foldl scan_platform (hub, m0) platforms).2 ≠ 0).
Proof.
  induction platforms as [|[component conf_key] platforms IH] using rev_ind.
  { simpl. split_and!; [done..|lia| |by left].
    intros platform zs z Hin. by apply elem_of_nil in Hin. }
  rewrite foldl_snoc.
  destruct (foldl scan_platform (hub, m0) platforms) as [hub' m] eqn:Hfold.
  simpl in IH. destruct IH as (Hfields & Hintervals & Hle & Hlower & Hattained).
  assert ((scan_platform (hub', m) (component, conf_key)).2 ≤ m
          ∧ (∀ zs z, intervals_at hub conf_key = Some zs → z ∈ zs → z ≠ 0 →
               (scan_platform (hub', m) (component, conf_key)).2 ≤ z)
          ∧ ((scan_platform (hub', m) (component, conf_key)).2 = m
             ∨ ∃ zs, intervals_at hub conf_key = Some zs
                     ∧ (scan_platform (hub', m) (component, conf_key)).2 ∈ zs
                     ∧ (scan_platform (hub', m) (component, conf_key)).2 ≠ 0))
    as (Hle' & Hlower' & Hattained').
  { specialize (Hintervals conf_key). unfold intervals_at in Hintervals |- *.
    unfold scan_platform.
    destruct (hub_entities hub' !! conf_key) as [entries|].
    - pose proof (scan_entries_intervals entries m) as (Hle' & Hlower' & Hattained').
      destruct (scan_entries entries m) as [entries' m']. simpl in *.
      destruct (hub_entities hub !! conf_key) as [original|]; [|done].
      injection Hintervals as Hintervals. rewrite <- Hintervals.
      split_and!; [done| |].
      + intros zs z [= <-]. apply Hlower'.
      + destruct Hattained' as [->|?]; [by left|]. right. by eexists.
    - destruct (hub_entities hub !! conf_key); [done|].
      simpl. split_and!; [lia|done|by left]. }
  pose proof (scan_platform_fields hub' m (component, conf_key)) as Hfields'.
  pose proof (scan_platform_intervals hub' m (component, conf_key)) as Hintervals'.
  destruct (scan_platform (hub', m) (component, conf_key)) as [hub'' m'].
  simpl in *.
  destruct Hfields as (Hn & Ht & Hh & Hp & Hto).
  destruct Hfields' as (Hn' & Ht' & Hh' & Hp' & Hto').
  split_and!; try congruence.
  - lia.
  - intros platform zs z [Hin|Heq%list_elem_of_singleton]%elem_of_app Hzs Hz Hne.
    + specialize (Hlower platform zs z Hin Hzs Hz Hne). lia.
    + subst platform. by apply (Hlower' zs z).
  - destruct Hattained' as [->|(zs & Hzs & Hin & Hne)].
    + destruct Hattained as [->|(platform & zs & Hin & Hzs & Hz & Hne)]; [by left|].
      right. exists platform, zs. split_and!; try done. apply elem_of_app. by left.
    + right. exists (component, conf_key), zs. split_and!; try done.
      apply elem_of_app. right. by left.
Qed.

End timing_facts.

Section timing_claims.
Context `{Const}.

(** C5: every hub is returned with its minimum interval [m] being the
    least of [DEFAULT_SCAN_INTERVAL] and of the poll intervals, other than
    0, of the entities of its platform lists; its timeout becomes [m - 1]
    exactly when it has a timeout, [m > 1] and the timeout exceeds
    [m - 1], and is left as it was otherwise. *)
Theorem scan_interval_validator_timeout (config : list Hub) :
  length (scan_interval_validator config) = length config
  ∧ ∀ (i : nat) (hub : Hub),
      config !! i = Some hub →
      ∃ (hub' : Hub) (m : Z),
        scan_interval_validator config !! i = Some hub'
        ∧ m ≤ DEFAULT_SCAN_INTERVAL
        ∧ (∀ z, contained_interval hub z → m ≤ z)
        ∧ (m = DEFAULT_SCAN_INTERVAL ∨ contained_interval hub m)
        ∧ hub_timeout hub'
          = match hub_timeout hub with
            | Some timeout =>
                if decide (1 < m ∧ m - 1 < timeout) then Some (m - 1)
                else Some timeout
            | None => None
            end
        ∧ hub_name hub' = hub_name hub ∧ hub_type hub' = hub_type hub
        ∧ hub_host hub' = hub_host hub ∧ hub_port hub' = hub_port hub.
Proof.
  split; [apply length_fmap|]. intros i hub Hi.
  unfold scan_interval_validator. rewrite list_lookup_fmap, Hi. simpl.
  unfold scan_platforms.
  pose proof (scan_platforms_spec PLATFORMS hub DEFAULT_SCAN_INTERVAL)
    as ((Hn & Ht & Hh & Hp & Hto) & _ & Hle & Hlower & Hattained).
  destruct (foldl scan_platform (hub, DEFAULT_SCAN_INTERVAL) PLATFORMS)
    as [hub' m]. simpl in *.
  exists (adjust_timeout hub' m), m. split; [done|]. split; [done|]. split.
  { intros z (platform & zs & Hin & Hzs & Hz & Hne)%contained_interval_intervals.
    by apply (Hlower platform zs). }
  split.
  { destruct Hattained as [->|(platform & zs & Hin & Hzs & Hz & Hne)]; [by left|].
    right. apply contained_interval_intervals. by exists platform, zs. }
  unfold adjust_timeout. rewrite Hto.
  destruct (hub_timeout hub) as [timeout|]; [|done].
  destruct (Z.ltb_spec (m - 1) timeout), (Z.ltb_spec 1 m); simpl;
    case_decide; try lia; by rewrite ?Hto.
Qed.

End timing_claims.

(** C5 on the example of the claim: entities polled every 0, 3 and 30
    seconds under a hub with a timeout of 10 leave it a timeout of 2. *)
Lemma scan_interval_validator_timeout_witness :
  ∃ hub',
    @scan_interval_validator example_const [example_timing_hub] !! 0%nat = Some hub'
    ∧ hub_timeout hub' = Some 2.
Proof.
  destruct (proj2 (@scan_interval_validator_timeout example_const [example_timing_hub])
              0%nat _ eq_refl)
    as (hub' & m & Hlookup & Hle & Hlower & Hattained & Htimeout & _).
  exists hub'. split; [exact Hlookup|].
  assert (m ≤ 3) as Hm3.
  { apply Hlower.
    exists ("sensor", "sensors"), example_sensors, (example_entity "b" 2 (Some 3)).
    split_and!; [|reflexivity| |reflexivity|discriminate].
    - do 5 apply list_elem_of_further. apply list_elem_of_here.
    - apply list_elem_of_further, list_elem_of_here. }
  assert (3 ≤ m) as Hm.
  { destruct Hattained
      as [->|(platform & entries & entry & Hp & Hentries & Hin & <- & Hne)].
    - simpl. lia.
    - assert (entries = example_sensors) as ->.
      { simpl in Hp.
        repeat (apply elem_of_cons in Hp as [->|Hp]);
          try (by apply elem_of_nil in Hp); vm_compute in Hentries;
          first [ discriminate | by injection Hentries as <- ]. }
      unfold example_sensors in Hin.
      repeat (apply elem_of_cons in Hin as [->|Hin]);
        try (by apply elem_of_nil in Hin);
        first [ by exfalso; apply Hne | by vm_compute ]. }
  assert (m = 3) as -> by lia. exact Htimeout.
Defined.

(** C6 on three sensors: the second repeats the address of the first and
    is removed; the third repeats the name of the second only and stays. *)
Lemma duplicate_entity_validator_survivors_witness :
  ∃ hub',
    @duplicate_entity_validator example_const
       [example_hub "hub" "host" 502 None example_duplicates] !! 0%nat
    = Some hub'
    ∧ hub_entities hub' !! "sensors"
      = Some [example_entity "x" 1 None; example_entity "y" 2 None].
Proof.
  destruct (proj1 (@duplicate_entity_validator_survivors example_const)
              [example_hub "hub" "host" 502 None example_duplicates] 0%nat _ eq_refl)
    as (hub' & Hlookup & _ & _ & _ & _ & _ & Hentities).
  exists hub'. split; [exact Hlookup|]. rewrite Hentities. by vm_compute.
Defined.



(** C8 on the mode values: the keys are distinct, the second item is
    removed, and a second run changes nothing. *)
Lemma resolvers_idempotent_witness :
  NoDup (conf_fan_mode_values example_fan_config).*1
  ∧ conf_fan_mode_values (duplicate_fan_mode_validator example_fan_config)
    = [("low", 1); ("high", 2)]
  ∧ duplicate_fan_mode_validator (duplicate_fan_mode_validator example_fan_config)
    = duplicate_fan_mode_validator example_fan_config.
Proof.
  assert (NoDup (conf_fan_mode_values example_fan_config).*1) as Hnodup.
  { apply (bool_decide_unpack _). by vm_compute. }
  split; [exact Hnodup|]. split; [by vm_compute|].
  exact (proj2 (proj2 (@resolvers_idempotent example_const)) example_fan_config Hnodup).
Defined.



(** * Further properties of the validators *)

(** ** Register validator *)

Section struct_validator_extras.
Context `{Const}.





(** X2: a validated declaration keeps its name, its slave counts, its
    swap and its other keys, carries the resolved data type, and always
    has a count and a structure. *)
Theorem struct_validator_returns (config config' : Config) :
  struct_validator config = Ok config' →
  conf_name config' = conf_name config
  ∧ conf_data_type config' = Member (resolve_data_type (conf_data_type config))
  ∧ conf_slave_count config' = conf_slave_count config
  ∧ conf_virtual_count config' = conf_virtual_count config
  ∧ conf_swap config' = conf_swap config
  ∧ conf_other config' = conf_other config
  ∧ is_Some (conf_count config')
  ∧ is_Some (conf_structure config').
Proof.
  intros Hv.
  destruct (legality_checks config) as [[]|e'] eqn:Hlegal;
    [|by rewrite (struct_validator_legality _ _ Hlegal) in Hv].
  pose proof Hlegal as Hp. unfold legality_checks in Hp.
  destruct (parameter_checks config) as [[]|] eqn:Hparm; [|done].
  apply parameter_checks_ok in Hparm as (Hcount & Hstructure & _).
  unfold parameter_violation in *.
  destruct (decide (resolve_data_type (conf_data_type config) = CUSTOM))
    as [Hdt|Hdt].
  - rewrite (struct_validator_custom _ Hlegal Hdt) in Hv.
    rewrite Hdt in Hcount, Hstructure |- *. simpl in Hcount, Hstructure.
    destruct (check_custom _ _ _) as [[]|]; [|done]. injection Hv as <-. simpl.
    destruct (conf_structure config); [|tauto].
    destruct (conf_count config); [|tauto]. by split_and!.
  - unfold struct_validator in Hv. rewrite Hlegal in Hv. simpl in Hv.
    destruct (resolve_data_type (conf_data_type config)) eqn:Hres;
      try done; injection Hv as <-; simpl; split_and!; try done.
    simpl in Hcount. destruct (conf_count config); [done|tauto].
Qed.

(** X3: validating a validated declaration again refuses it when its
    type is not CUSTOM, for the count or the structure that the first run
    wrote: the count is illegal for the fixed-width types and the
    structure is illegal for STRING. *)
Theorem struct_validator_twice_fixed (config config' : Config) :
  struct_validator config = Ok config' →
  resolve_data_type (conf_data_type config) ≠ CUSTOM →
  struct_validator config'
  = Raise (Invalid
             (Illegal_with (conf_name config)
                (if decide (resolve_data_type (conf_data_type config) = STRING)
                 then Parm_structure else Parm_count)
                (resolve_data_type (conf_data_type config)))).
Proof.
  intros Hv Hdt.
  destruct (legality_checks config) as [[]|e'] eqn:Hlegal;
    [|by rewrite (struct_validator_legality _ _ Hlegal) in Hv].
  pose proof Hlegal as Hp. unfold legality_checks in Hp.
  destruct (parameter_checks config) as [[]|] eqn:Hparm; [|done].
  apply parameter_checks_ok in Hparm as (Hcount & _).
  unfold parameter_violation in Hcount.
  unfold struct_validator in Hv. rewrite Hlegal in Hv. simpl in Hv.
  apply struct_validator_legality. unfold legality_checks, parameter_checks.
  destruct (resolve_data_type (conf_data_type config)) eqn:Hres;
    try done; injection Hv as <-; simpl; try done.
  simpl in Hcount. destruct (conf_count config); [done|tauto].
Qed.

(** X4: validating a validated CUSTOM declaration again returns it
    unchanged. *)
Theorem struct_validator_twice_custom (config config' : Config) :
  struct_validator config = Ok config' →
  resolve_data_type (conf_data_type config) = CUSTOM →
  struct_validator config' = Ok config'.
Proof.
  intros Hv Hdt.
  destruct (legality_checks config) as [[]|e'] eqn:Hlegal;
    [|by rewrite (struct_validator_legality _ _ Hlegal) in Hv].
  rewrite (struct_validator_custom _ Hlegal Hdt) in Hv.
  destruct (check_custom _ _ _) as [[]|] eqn:Hcustom; [|done].
  injection Hv as <-.
  assert (legality_checks
            {| conf_name := conf_name config;
               conf_data_type := Member CUSTOM;
               conf_count := conf_count config;
               conf_structure := conf_structure config;
               conf_slave_count := conf_slave_count config;
               conf_virtual_count := conf_virtual_count config;
               conf_swap := conf_swap config;
               conf_other := conf_other config |} = Ok ()) as Hlegal'.
  { rewrite <- Hlegal.
    unfold legality_checks, parameter_checks, get_slave_count. simpl.
    by rewrite Hdt. }
  rewrite (struct_validator_custom _ Hlegal' eq_refl). simpl.
  by rewrite Hcustom.
Qed.

(** X5: the parameters are tested in the order count, structure, slave
    count, and the error names the first one that violates the matrix:
    missing when it is absent, illegal when it is present. *)
Theorem struct_validator_first_violation (config : Config) :
  (parameter_violation (conf_count config)
     (count (validate_parm (DEFAULT_STRUCT_FORMAT
                              (resolve_data_type (conf_data_type config))))) →
   struct_validator config
   = Raise (Invalid
              ((if decide (conf_count config = None)
                then Missing_demanded else Illegal_with)
                 (conf_name config) Parm_count
                 (resolve_data_type (conf_data_type config)))))
  ∧ (¬ parameter_violation (conf_count config)
         (count (validate_parm (DEFAULT_STRUCT_FORMAT
                                  (resolve_data_type (conf_data_type config))))) →
     parameter_violation (conf_structure config)
       (structure (validate_parm (DEFAULT_STRUCT_FORMAT
                                    (resolve_data_type (conf_data_type config))))) →
     struct_validator config
     = Raise (Invalid
                ((if decide (conf_structure config = None)
                  then Missing_demanded else Illegal_with)
                   (conf_name config) Parm_structure
                   (resolve_data_type (conf_data_type config)))))
  ∧ (¬ parameter_violation (conf_count config)
         (count (validate_parm (DEFAULT_STRUCT_FORMAT
                                  (resolve_data_type (conf_data_type config))))) →
     ¬ parameter_violation (conf_structure config)
         (structure (validate_parm (DEFAULT_STRUCT_FORMAT
                                      (resolve_data_type (conf_data_type config))))) →
     parameter_violation (get_slave_count config)
       (slave_count (validate_parm (DEFAULT_STRUCT_FORMAT
                                      (resolve_data_type (conf_data_type config))))) →
     struct_validator config
     = Raise (Invalid
                ((if decide (get_slave_count config = None)
                  then Missing_demanded else Illegal_with)
                   (conf_name config) Parm_slave_count
                   (resolve_data_type (conf_data_type config))))).
Proof.
  assert (∀ e, parameter_checks config = Raise e → struct_validator config = Raise e)
    as Hraise.
  { intros e He. apply struct_validator_legality. unfold legality_checks.
    by rewrite He. }
  unfold parameter_violation.
  split_and!; intros; apply Hraise; unfold parameter_checks;
    destruct (validate_parm _) as [c s sl sb sw]; simpl in *;
    destruct (conf_count config), (conf_structure config), (get_slave_count config);
    destruct c, s, sl; simpl; first [ done | exfalso; intuition congruence ].
Qed.


End struct_validator_extras.


(** X2 at an INT32 register with a slave count and the byte swap. *)
Lemma struct_validator_returns_witness :
  @struct_validator example_const
     (example_register (Legacy_int) None None (Some 1) (Some "byte"))
  = Ok (example_register (Member INT16) (Some 1) (Some ">2h") (Some 1) (Some "byte"))
  ∧ conf_data_type
      (example_register (Member INT16) (Some 1) (Some ">2h") (Some 1) (Some "byte"))
    = Member INT16.
Proof.
  assert (@struct_validator example_const
            (example_register (Legacy_int) None None (Some 1) (Some "byte"))
          = Ok (example_register (Member INT16) (Some 1) (Some ">2h") (Some 1)
                  (Some "byte"))) as Hv by reflexivity.
  split; [exact Hv|].
  exact (proj1 (proj2 (@struct_validator_returns example_const _ _ Hv))).
Defined.

(** X3 at an INT16 register: the second run refuses the count that the
    first run wrote. *)
Lemma struct_validator_twice_fixed_witness :
  @struct_validator example_const
     (example_register (Member INT16) None None None None)
  = Ok (example_register (Member INT16) (Some 1) (Some ">h") None None)
  ∧ @struct_validator example_const
      (example_register (Member INT16) (Some 1) (Some ">h") None None)
    = Raise (Invalid (Illegal_with "register" Parm_count INT16)).
Proof.
  assert (@struct_validator example_const
            (example_register (Member INT16) None None None None)
          = Ok (example_register (Member INT16) (Some 1) (Some ">h") None None))
    as Hv by reflexivity.
  split; [exact Hv|].
  apply (@struct_validator_twice_fixed example_const _ _ Hv). discriminate.
Defined.

(** X4 at a CUSTOM register of two registers. *)
Lemma struct_validator_twice_custom_witness :
  @struct_validator example_const
     (example_register (Member CUSTOM) (Some 2) (Some ">2h") None None)
  = Ok (example_register (Member CUSTOM) (Some 2) (Some ">2h") None None)
  ∧ @struct_validator example_const
      (example_register (Member CUSTOM) (Some 2) (Some ">2h") None None)
    = Ok (example_register (Member CUSTOM) (Some 2) (Some ">2h") None None).
Proof.
  assert (@struct_validator example_const
            (example_register (Member CUSTOM) (Some 2) (Some ">2h") None None)
          = Ok (example_register (Member CUSTOM) (Some 2) (Some ">2h") None None))
    as Hv by reflexivity.
  split; [exact Hv|].
  exact (@struct_validator_twice_custom example_const _ _ Hv eq_refl).
Defined.

(** X5 at a STRING register that lacks its count and carries a structure:
    the missing count is reported, not the illegal structure. *)
Lemma struct_validator_first_violation_witness :
  @struct_validator example_const
     (example_register (Member STRING) None (Some ">4s") None None)
  = Raise (Invalid (Missing_demanded "register" Parm_count STRING)).
Proof.
  apply (proj1 (@struct_validator_first_violation example_const
                  (example_register (Member STRING) None (Some ">4s") None None))).
  left. split; reflexivity.
Defined.


(** ** Numeric coercers *)

Lemma lstrip_head (c : ascii) (l : list ascii) :
  PyLong.is_space c = false → PyLong.lstrip (c :: l) = c :: l.
Proof. intros Hc. simpl. by rewrite Hc. Qed.

Lemma strip_no_space (l : list ascii) :
  Forall (λ c, PyLong.is_space c = false) l → PyLong.strip l = l.
Proof.
  intros Hl. unfold PyLong.strip.
  assert (∀ l', Forall (λ c, PyLong.is_space c = false) l' → PyLong.lstrip l' = l')
    as Hlstrip.
  { intros l' Hl'. destruct Hl' as [|c l' Hc _]; [done|by apply lstrip_head]. }
  rewrite (Hlstrip l Hl), Hlstrip; [apply reverse_involutive|].
  by apply Forall_reverse.
Qed.

Lemma uint_no_space (d : Decimal.uint) :
  Forall (λ c, PyLong.is_space c = false)
    (String.list_ascii_of_string (NilEmpty.string_of_uint d)).
Proof. induction d; simpl; by constructor. Qed.

Lemma uint_to_ascii (d : Decimal.uint) :
  PyLong.to_ascii <$> String.list_ascii_of_string (NilEmpty.string_of_uint d)
  = String.list_ascii_of_string (NilEmpty.string_of_uint d).
Proof.
  induction d as [|d IH|d IH|d IH|d IH|d IH|d IH|d IH|d IH|d IH|d IH];
    [done|..];
    cbn [NilEmpty.string_of_uint String.list_ascii_of_string fmap list_fmap];
    by rewrite IH.
Qed.

Lemma uint_count_digits (d : Decimal.uint) :
  PyLong.count_digits (String.list_ascii_of_string (NilEmpty.string_of_uint d))
  = Z.of_nat (String.length (NilEmpty.string_of_uint d)).
Proof.
  unfold PyLong.count_digits. f_equal.
  induction d as [|d IH|d IH|d IH|d IH|d IH|d IH|d IH|d IH|d IH|d IH];
    [done|..];
    cbn [NilEmpty.string_of_uint String.list_ascii_of_string String.length];
    rewrite <- IH; reflexivity.
Qed.

Ltac digit_step k :=
  lazymatch goal with
  | |- PyLong.digits 10 ?a false (_ :: ?l) = _ =>
      transitivity (PyLong.digits 10 (a * 10 + k) false l);
      [reflexivity|f_equal; lia]
  end.

Lemma digits_of_uint_acc (d : Decimal.uint) (acc : positive) :
  PyLong.digits 10 (Z.pos acc) false
    (String.list_ascii_of_string (NilEmpty.string_of_uint d))
  = Some (Z.pos (Pos.of_uint_acc d acc)).
Proof.
  revert acc.
  induction d as [|d IH|d IH|d IH|d IH|d IH|d IH|d IH|d IH|d IH|d IH];
    intros acc; [done|..];
    cbn [NilEmpty.string_of_uint String.list_ascii_of_string Pos.of_uint_acc];
    rewrite <- IH.
  - digit_step 0.
  - digit_step 1.
  - digit_step 2.
  - digit_step 3.
  - digit_step 4.
  - digit_step 5.
  - digit_step 6.
  - digit_step 7.
  - digit_step 8.
  - digit_step 9.
Qed.

Lemma digits_of_uint (d : Decimal.uint) :
  PyLong.digits 10 0 false
    (String.list_ascii_of_string (NilEmpty.string_of_uint d))
  = Some (Z.of_N (Pos.of_uint d)).
Proof.
  induction d as [|d IH|d IH|d IH|d IH|d IH|d IH|d IH|d IH|d IH|d IH];
    [done|exact IH|..];
    cbn [NilEmpty.string_of_uint String.list_ascii_of_string Pos.of_uint Z.of_N];
    rewrite <- digits_of_uint_acc; reflexivity.
Qed.

(** In base 10 no prefix is taken off. *)
Lemma magnitude_10 (c : ascii) (l : list ascii) :
  PyLong.magnitude 10 (c :: l)
  = if Ascii.eqb c "_" then None
    else
      match PyLong.digits 10 0 false (c :: l) with
      | Some z =>
          if PyLong.count_digits (c :: l) <=? PyLong.max_str_digits
          then Some z else None
      | None => None
      end.
Proof.
  unfold PyLong.magnitude.
  destruct l as [|x l]; destruct c as [[] [] [] [] [] [] [] []]; reflexivity.
Qed.

Lemma uint_head (d : Decimal.uint) :
  d ≠ Decimal.Nil →
  ∃ c l, String.list_ascii_of_string (NilEmpty.string_of_uint d) = c :: l
         ∧ Ascii.eqb c "_" = false.
Proof. destruct d; [done|..]; intros _; eexists _, _; by split. Qed.

Lemma magnitude_of_uint (d : Decimal.uint) :
  d ≠ Decimal.Nil →
  (String.length (NilEmpty.string_of_uint d) ≤ 4300)%nat →
  PyLong.magnitude 10 (String.list_ascii_of_string (NilEmpty.string_of_uint d))
  = Some (Z.of_N (Pos.of_uint d)).
Proof.
  intros Hd Hlen.
  pose proof (digits_of_uint d) as Hdigits.
  pose proof (uint_count_digits d) as Hcount.
  destruct (uint_head d Hd) as (c & l & Hchars & Hc).
  rewrite Hchars in *. rewrite magnitude_10, Hc, Hdigits, Hcount.
  rewrite (proj2 (Z.leb_le _ _)); [done|]. unfold PyLong.max_str_digits. lia.
Qed.

(** [int] reads the decimal string of an integer of at most 4300 digits
    back as that integer. *)
Lemma from_string_str_int (z : Z) :
  (String.length (str_int (Z.abs z)) ≤ 4300)%nat →
  PyLong.from_string 10 (str_int z) = Some z.
Proof.
  unfold PyLong.from_string, str_int.
  destruct z as [|p|p]; [done|..]; cbn [Z.abs Z.to_int NilEmpty.string_of_int];
    intros Hlen;
    pose proof (magnitude_of_uint _ (DecimalPos.Unsigned.to_uint_nonnil p) Hlen)
      as Hm;
    rewrite DecimalPos.Unsigned.of_to in Hm.
  - rewrite uint_to_ascii, (strip_no_space _ (uint_no_space _)).
    pose proof (DecimalPos.Unsigned.to_uint_nonnil p) as Hnil.
    destruct (Pos.to_uint p); [done|..]; exact Hm.
  - cbn [String.list_ascii_of_string fmap list_fmap].
    rewrite uint_to_ascii.
    change (PyLong.to_ascii "-") with "-"%char.
    rewrite strip_no_space by (constructor; [done|apply uint_no_space]).
    by rewrite Hm.
Qed.

Section coercer_extras.
Context `{Float}.



(** X9: the NaN coercer truncates a finite float, refuses a nan as an
    invalid number (the ValueError of [int] is caught, the TypeError of
    [int(value, 16)] on a float as well), and lets the OverflowError of an
    infinity through. *)
Theorem nan_validator_float (f : float) :
  nan_validator (V_float f)
  = if float_is_nan f then Raise (Invalid Invalid_number)
    else if float_is_inf f then Raise OverflowError
    else Ok (V_int (float_trunc f)).
Proof.
  unfold nan_validator. simpl. by destruct (float_is_nan f), (float_is_inf f).
Qed.

(** X10: both coercers read the decimal string of an integer of at most
    4300 digits, the limit of [int], back as that integer. *)
Theorem coercers_read_str_int (z : Z) :
  (String.length (str_int (Z.abs z)) ≤ 4300)%nat →
  number_validator (V_str (str_int z)) = Ok (V_int z)
  ∧ nan_validator (V_str (str_int z)) = Ok (V_int z).
Proof.
  intros Hlen. unfold number_validator, nan_validator. simpl.
  by rewrite from_string_str_int.
Qed.

End coercer_extras.


(** X10 at -42. *)
Lemma coercers_read_str_int_witness :
  @number_validator example_float (V_str "-42") = Ok (V_int (-42))
  ∧ @nan_validator example_float (V_str "-42") = Ok (V_int (-42)).
Proof.
  apply (@coercers_read_str_int example_float (-42)). simpl. lia.
Defined.


(** ** Timing normaliser *)

Section timing_extras.
Context `{Const}.

Lemma scan_entries_fst (entries : list Entity) (m : Z) :
  (scan_entries entries m).1 = written_back <$> entries.
Proof.
  revert m. induction entries as [|entry entries IH]; intros m; [done|].
  simpl. unfold scan_entry, written_back.
  destruct (get_scan_interval entry =? 0).
  - specialize (IH m). destruct (scan_entries entries m). simpl in *. by f_equal.
  - specialize (IH (Z.min (get_scan_interval entry) m)).
    destruct (scan_entries entries _). simpl in *. by f_equal.
Qed.

Lemma written_back_idempotent (entry : Entity) :
  written_back (written_back entry) = written_back entry.
Proof.
  unfold written_back.
  destruct (Z.eqb_spec (get_scan_interval entry) 0) as [Hzero|Hne].
  - by rewrite (proj2 (Z.eqb_eq _ _) Hzero).
  - unfold get_scan_interval at 1. simpl.
    by rewrite (proj2 (Z.eqb_neq _ _) Hne).
Qed.

Lemma scan_platform_lookup (hub : Hub) (m : Z) (component conf_key key : string) :
  hub_entities (scan_platform (hub, m) (component, conf_key)).1 !! key
  = if decide (key = conf_key)
    then fmap written_back <$> hub_entities hub !! key
    else hub_entities hub !! key.
Proof.
  unfold scan_platform.
  destruct (hub_entities hub !! conf_key) as [entries|] eqn:Hlookup.
  - pose proof (scan_entries_fst entries m) as Hfst.
    destruct (scan_entries entries m) as [entries' m']. simpl in *. subst entries'.
    case_decide as Hkey; subst.
    + by rewrite lookup_insert_eq, Hlookup.
    + by rewrite lookup_insert_ne.
  - case_decide as Hkey; subst; simpl; [by rewrite Hlookup|done].
Qed.

(** After the loop over the platforms, the lists under their keys have
    their poll intervals written back and the others are as they were. *)
Lemma scan_platforms_lookup (platforms : list (string * string)) (hub : Hub)
    (m0 : Z) (key : string) :
  hub_entities (foldl scan_platform (hub, m0) platforms).1 !! key
  = if decide (key ∈ platforms.*2)
    then fmap written_back <$> hub_entities hub !! key
    else hub_entities hub !! key.
Proof.
  induction platforms as [|[component conf_key] platforms IH] using rev_ind;
    [done|].
  rewrite foldl_snoc, fmap_app.
  destruct (foldl scan_platform (hub, m0) platforms) as [hub' m] eqn:Hfold.
  rewrite scan_platform_lookup. simpl in IH. rewrite IH. simpl.
  destruct (decide (key = conf_key)) as [->|Hne].
  - rewrite (decide_True (P := conf_key ∈ platforms.*2 ++ [conf_key]))
      by (apply elem_of_app; right; by apply list_elem_of_singleton).
    case_decide; [|done].
    destruct (hub_entities hub !! conf_key) as [entries|]; [|done]. simpl.
    f_equal. rewrite <- list_fmap_compose. apply list_fmap_ext.
    intros i entry _. apply written_back_idempotent.
  - repeat case_decide; try done; exfalso;
      rewrite elem_of_app, list_elem_of_singleton in *; tauto.
Qed.

(** The minimum depends on the poll intervals only. *)
Lemma scan_platforms_minimum_ext (platforms : list (string * string))
    (hub1 hub2 : Hub) (m0 : Z) :
  (∀ key, intervals_at hub1 key = intervals_at hub2 key) →
  (foldl scan_platform (hub1, m0) platforms).2
  = (foldl scan_platform (hub2, m0) platforms).2.
Proof.
  intros Hext.
  destruct (scan_platforms_spec platforms hub1 m0)
    as (_ & _ & Hle1 & Hlower1 & Hattained1).
  destruct (scan_platforms_spec platforms hub2 m0)
    as (_ & _ & Hle2 & Hlower2 & Hattained2).
  apply Z.le_antisymm.
  - destruct Hattained2 as [->|(platform & zs & Hin & Hzs & Hz & Hne)]; [done|].
    rewrite <- Hext in Hzs. by apply (Hlower1 platform zs).
  - destruct Hattained1 as [->|(platform & zs & Hin & Hzs & Hz & Hne)]; [done|].
    rewrite Hext in Hzs. by apply (Hlower2 platform zs).
Qed.

Lemma adjust_timeout_fields (hub : Hub) (m : Z) :
  hub_name (adjust_timeout hub m) = hub_name hub
  ∧ hub_type (adjust_timeout hub m) = hub_type hub
  ∧ hub_host (adjust_timeout hub m) = hub_host hub
  ∧ hub_port (adjust_timeout hub m) = hub_port hub
  ∧ hub_entities (adjust_timeout hub m) = hub_entities hub.
Proof.
  unfold adjust_timeout. destruct (hub_timeout hub); [|done].
  by destruct (_ && _).
Qed.

Lemma adjust_timeout_idempotent (hub : Hub) (m : Z) :
  adjust_timeout (adjust_timeout hub m) m = adjust_timeout hub m.
Proof.
  unfold adjust_timeout.
  destruct (hub_timeout hub) as [timeout|] eqn:Htimeout; [|by rewrite Htimeout].
  destruct ((m - 1 <? timeout) && (1 <? m)) eqn:Htest.
  - simpl. by rewrite Z.ltb_irrefl.
  - by rewrite Htimeout, Htest.
Qed.

(** One hub of the timing normaliser. *)
Lemma scan_interval_validator_lookup (config : list Hub) (i : nat) :
  scan_interval_validator config !! i
  = (λ hub, adjust_timeout (scan_platforms hub).1 (scan_platforms hub).2)
      <$> config !! i.
Proof.
  unfold scan_interval_validator. rewrite list_lookup_fmap.
  destruct (config !! i) as [hub|]; [|done]. simpl.
  by destruct (scan_platforms hub).
Qed.

Lemma scan_hub_idempotent (hub : Hub) :
  let hub' := adjust_timeout (scan_platforms hub).1 (scan_platforms hub).2 in
  adjust_timeout (scan_platforms hub').1 (scan_platforms hub').2 = hub'.
Proof.
  intros hub'. unfold scan_platforms in *.
  pose proof (scan_platforms_spec PLATFORMS hub DEFAULT_SCAN_INTERVAL)
    as (_ & Hintervals & _).
  pose proof (scan_platforms_spec PLATFORMS hub' DEFAULT_SCAN_INTERVAL)
    as ((Hn & Ht & Hh & Hp & Hto) & _).
  destruct (adjust_timeout_fields
              (foldl scan_platform (hub, DEFAULT_SCAN_INTERVAL) PLATFORMS).1
              (foldl scan_platform (hub, DEFAULT_SCAN_INTERVAL) PLATFORMS).2)
    as (_ & _ & _ & _ & Hentities).
  fold hub' in Hentities.
  assert ((foldl scan_platform (hub', DEFAULT_SCAN_INTERVAL) PLATFORMS).1 = hub')
    as Hsame.
  { apply hub_eq; try done. apply map_eq. intros key.
    rewrite scan_platforms_lookup, Hentities, scan_platforms_lookup.
    case_decide; [|done].
    destruct (hub_entities hub !! key) as [entries|]; [|done]. simpl.
    f_equal. rewrite <- list_fmap_compose. apply list_fmap_ext.
    intros i entry _. apply written_back_idempotent. }
  assert ((foldl scan_platform (hub', DEFAULT_SCAN_INTERVAL) PLATFORMS).2
          = (foldl scan_platform (hub, DEFAULT_SCAN_INTERVAL) PLATFORMS).2)
    as Hminimum.
  { apply scan_platforms_minimum_ext. intros key.
    rewrite <- Hintervals. unfold intervals_at. by rewrite Hentities. }
  rewrite Hsame, Hminimum. apply adjust_timeout_idempotent.
Qed.

(** X11: the timing normaliser, run on its own result, returns it
    unchanged: the poll intervals are written already and the lowered
    timeout is not above the minimum less one. *)
Theorem scan_interval_validator_idempotent (config : list Hub) :
  scan_interval_validator (scan_interval_validator config)
  = scan_interval_validator config.
Proof.
  apply list_eq. intros i.
  rewrite scan_interval_validator_lookup, scan_interval_validator_lookup.
  destruct (config !! i) as [hub|]; [|done]. simpl. f_equal.
  apply scan_hub_idempotent.
Qed.

(** X12: in every hub the lists under the keys of the platforms come
    back entry by entry with the poll interval written under its key
    unless it is 0, an absent interval being written as the default; the
    names and the address keys of the entries are as they were, and so is
    everything under another key. *)
Theorem scan_interval_validator_entities (config : list Hub) (i : nat) (hub : Hub) :
  config !! i = Some hub →
  (∃ hub',
     scan_interval_validator config !! i = Some hub'
     ∧ ∀ key,
         hub_entities hub' !! key
         = if decide (key ∈ PLATFORMS.*2)
           then fmap written_back <$> hub_entities hub !! key
           else hub_entities hub !! key)
  ∧ ∀ entry : Entity,
      (get_scan_interval entry = 0 → written_back entry = entry)
      ∧ (get_scan_interval entry ≠ 0 →
         ent_scan_interval (written_back entry) = Some (get_scan_interval entry))
      ∧ (ent_scan_interval entry = None → DEFAULT_SCAN_INTERVAL ≠ 0 →
         ent_scan_interval (written_back entry) = Some DEFAULT_SCAN_INTERVAL)
      ∧ ent_name (written_back entry) = ent_name entry
      ∧ entity_addrs (written_back entry) = entity_addrs entry.
Proof.
  intros Hi. split.
  - rewrite scan_interval_validator_lookup, Hi. simpl. eexists. split; [done|].
    intros key.
    destruct (adjust_timeout_fields (scan_platforms hub).1 (scan_platforms hub).2)
      as (_ & _ & _ & _ & ->).
    apply scan_platforms_lookup.
  - intros entry. unfold written_back.
    destruct (Z.eqb_spec (get_scan_interval entry) 0) as [Hzero|Hne].
    + split_and!; try done. intros Hnone. unfold get_scan_interval in Hzero.
      rewrite Hnone in Hzero. simpl in Hzero. congruence.
    + split_and!; try done. intros Hnone _. unfold get_scan_interval.
      by rewrite Hnone.
Qed.

(** X13: a hub without a timeout gets none, and a timeout is never
    raised; a timeout that is lowered is at least 1 and below the default
    poll interval and every poll interval, other than 0, of the entities
    of the hub. *)
Theorem scan_interval_validator_timeout_lowered (config : list Hub) (i : nat)
    (hub hub' : Hub) :
  config !! i = Some hub →
  scan_interval_validator config !! i = Some hub' →
  (hub_timeout hub = None → hub_timeout hub' = None)
  ∧ ∀ timeout,
      hub_timeout hub = Some timeout →
      ∃ timeout',
        hub_timeout hub' = Some timeout'
        ∧ timeout' ≤ timeout
        ∧ (timeout' < timeout →
           1 ≤ timeout' ∧ timeout' < DEFAULT_SCAN_INTERVAL
           ∧ ∀ z, contained_interval hub z → timeout' < z).
Proof.
  intros Hi. rewrite scan_interval_validator_lookup, Hi. simpl. intros [= <-].
  unfold scan_platforms.
  pose proof (scan_platforms_spec PLATFORMS hub DEFAULT_SCAN_INTERVAL)
    as ((_ & _ & _ & _ & Hto) & _ & Hle & Hlower & _).
  destruct (foldl scan_platform (hub, DEFAULT_SCAN_INTERVAL) PLATFORMS)
    as [hub1 m]. simpl in *.
  unfold adjust_timeout. rewrite Hto. split.
  - intros Hnone. by rewrite Hnone, Hto.
  - intros timeout Htimeout. rewrite Htimeout.
    destruct (Z.ltb_spec (m - 1) timeout), (Z.ltb_spec 1 m); simpl;
      try (exists timeout; split; [by rewrite Hto|]; split; lia).
    exists (m - 1). split; [done|]. split; [lia|]. intros _.
    split; [lia|]. split; [lia|].
    intros z (platform & zs & Hin & Hzs & Hz & Hne)%contained_interval_intervals.
    specialize (Hlower platform zs z Hin Hzs Hz Hne). lia.
Qed.

End timing_extras.

(** X12 on the timing example: the three sensors come back with their
    poll intervals. *)
Lemma scan_interval_validator_entities_witness :
  ∃ hub',
    @scan_interval_validator example_const [example_timing_hub] !! 0%nat = Some hub'
    ∧ hub_entities hub' !! "sensors" = Some example_sensors.
Proof.
  destruct (proj1 (@scan_interval_validator_entities example_const
                     [example_timing_hub] 0%nat _ eq_refl))
    as (hub' & Hlookup & Hentities).
  exists hub'. split; [exact Hlookup|]. rewrite Hentities. by vm_compute.
Defined.

(** X13 on the timing example: the timeout of 10 is lowered to 2. *)
Lemma scan_interval_validator_timeout_lowered_witness :
  ∃ hub' timeout',
    @scan_interval_validator example_const [example_timing_hub] !! 0%nat = Some hub'
    ∧ hub_timeout hub' = Some timeout'
    ∧ timeout' ≤ 10.
Proof.
  pose proof (@scan_interval_validator_lookup example_const
                [example_timing_hub] 0%nat) as Hlookup.
  eexists.
  destruct (proj2 (@scan_interval_validator_timeout_lowered example_const
                     [example_timing_hub] 0%nat _ _ eq_refl Hlookup)
              10 eq_refl)
    as (timeout' & Htimeout & Hle & _).
  exists timeout'. split; [exact Hlookup|]. split; [exact Htimeout|exact Hle].
Defined.

(** ** The timing normaliser and the entity resolver together *)

Section written_back_facts.
Context `{Const}.

Lemma written_back_addrs (entry : Entity) :
  entity_addrs (written_back entry) = entity_addrs entry.
Proof. unfold written_back. by destruct (_ =? _). Qed.

Lemma written_back_name (entry : Entity) :
  ent_name (written_back entry) = ent_name entry.
Proof. unfold written_back. by destruct (_ =? _). Qed.

Lemma keys_of_written_back (entries : list Entity) :
  keys_of (written_back <$> entries) = keys_of entries.
Proof.
  unfold keys_of. rewrite <- list_fmap_compose. f_equal.
  apply list_fmap_ext. intros i entry _. apply written_back_addrs.
Qed.

Lemma names_of_written_back (entries : list Entity) :
  names_of (written_back <$> entries) = names_of entries.
Proof.
  unfold names_of. rewrite <- list_fmap_compose. f_equal.
  apply list_fmap_ext. intros i entry _. apply written_back_name.
Qed.

(** Writing the poll intervals back changes no key and no name, so it
    commutes with the removal of the duplicates. *)
Lemma dedupe_entries_written_back (entries : list Entity) :
  dedupe_entries (written_back <$> entries) = written_back <$> dedupe_entries entries.
Proof.
  induction entries as [|entry entries IH] using rev_ind; [done|].
  rewrite fmap_app. simpl.
  rewrite !dedupe_entries_snoc, !entity_rejected_spec, IH.
  rewrite keys_of_written_back, names_of_written_back.
  rewrite written_back_addrs, written_back_name, fmap_app.
  by case_bool_decide.
Qed.

End written_back_facts.

(** X14: the timing normaliser and the entity resolver can be run in
    either order as far as the entities, the names and the connections of
    the hubs go; the timeouts can differ, as the poll interval of an entity
    that the resolver removes counts for the minimum only when the timing
    normaliser runs first. *)
Theorem timing_and_entity_resolver_commute :
  (∀ (C : Const) (config : list Hub) (i : nat),
     (λ hub, (hub_name hub, hub_type hub, hub_host hub, hub_port hub,
              hub_entities hub))
       <$> duplicate_entity_validator (scan_interval_validator config) !! i
     = (λ hub, (hub_name hub, hub_type hub, hub_host hub, hub_port hub,
                hub_entities hub))
         <$> scan_interval_validator (duplicate_entity_validator config) !! i)
  ∧ ¬ (∀ config : list Hub,
         @duplicate_entity_validator example_const
            (@scan_interval_validator example_const config)
         = @scan_interval_validator example_const
             (@duplicate_entity_validator example_const config)).
Proof.
  split.
  - intros C config i.
    rewrite duplicate_entity_validator_lookup, !scan_interval_validator_lookup,
      duplicate_entity_validator_lookup.
    destruct (config !! i) as [hub|]; [|done]. simpl. f_equal.
    destruct (dedupe_platforms_fields PLATFORMS
                (adjust_timeout (scan_platforms hub).1 (scan_platforms hub).2))
      as (-> & -> & -> & -> & _).
    destruct (adjust_timeout_fields (scan_platforms hub).1 (scan_platforms hub).2)
      as (-> & -> & -> & -> & Hentities).
    destruct (adjust_timeout_fields
                (scan_platforms (foldl dedupe_platform hub PLATFORMS)).1
                (scan_platforms (foldl dedupe_platform hub PLATFORMS)).2)
      as (-> & -> & -> & -> & Hentities').
    unfold scan_platforms in *.
    destruct (scan_platforms_spec PLATFORMS hub DEFAULT_SCAN_INTERVAL)
      as ((-> & -> & -> & -> & _) & _).
    destruct (scan_platforms_spec PLATFORMS (foldl dedupe_platform hub PLATFORMS)
                DEFAULT_SCAN_INTERVAL)
      as ((-> & -> & -> & -> & _) & _).
    destruct (dedupe_platforms_fields PLATFORMS hub) as (-> & -> & -> & -> & _).
    f_equal. apply map_eq. intros key.
    rewrite dedupe_platforms_lookup, Hentities, Hentities'.
    rewrite !scan_platforms_lookup, dedupe_platforms_lookup.
    case_decide; [|done].
    destruct (hub_entities hub !! key) as [entries|]; [|done]. simpl.
    by rewrite dedupe_entries_written_back.
  - intros Hclaim.
    specialize (Hclaim [example_hub "hub" "host" 502 (Some 10)
                          [example_entity "x" 1 (Some 30);
                           example_entity "y" 1 (Some 3)]]).
    apply (f_equal (λ config, hub_timeout <$> config !! 0%nat)) in Hclaim.
    vm_compute in Hclaim. discriminate.
Qed.

(** X14 on a hub with a timeout of 10 whose second sensor repeats the
    address of the first. *)
Lemma timing_and_entity_resolver_commute_witness :
  (λ hub, (hub_name hub, hub_type hub, hub_host hub, hub_port hub,
           hub_entities hub))
    <$> @duplicate_entity_validator example_const
          (@scan_interval_validator example_const
             [example_hub "hub" "host" 502 (Some 10)
                [example_entity "x" 1 (Some 30); example_entity "y" 1 (Some 3)]])
        !! 0%nat
  = (λ hub, (hub_name hub, hub_type hub, hub_host hub, hub_port hub,
             hub_entities hub))
      <$> @scan_interval_validator example_const
            (@duplicate_entity_validator example_const
               [example_hub "hub" "host" 502 (Some 10)
                  [example_entity "x" 1 (Some 30); example_entity "y" 1 (Some 3)]])
          !! 0%nat.
Proof.
  exact (proj1 timing_and_entity_resolver_commute example_const _ 0%nat).
Defined.

(** ** Duplicate resolver for entities *)

Lemma pairwise_snoc_inv {A : Type} (R : A → A → Prop) (l : list A) (x : A) :
  pairwise R (l ++ [x]) → pairwise R l ∧ ∀ a, a ∈ l → R a x.
Proof.
  intros Hp. split.
  - intros i j a b Hij Hi Hj. apply (Hp i j a b Hij).
    + rewrite lookup_app_l; [done|]. by eapply lookup_lt_Some.
    + rewrite lookup_app_l; [done|]. by eapply lookup_lt_Some.
  - intros a [i Hi]%list_elem_of_lookup_1.
    apply (Hp i (length l) a x).
    + by eapply lookup_lt_Some.
    + rewrite lookup_app_l; [done|]. by eapply lookup_lt_Some.
    + by rewrite list_lookup_middle.
Qed.

Lemma not_disjoint_keys_of (X : gset string) (entries : list Entity) :
  ¬ X ## keys_of entries → ∃ s, s ∈ entries ∧ ¬ X ## entity_addrs s.
Proof.
  intros Hnot.
  destruct (decide (X ∩ keys_of entries = ∅)) as [Hempty|Hne].
  { exfalso. apply Hnot. by apply disjoint_intersection_L. }
  apply set_choose_L in Hne as [key [Hx Hkey]%elem_of_intersection].
  unfold keys_of in Hkey. apply elem_of_union_list in Hkey as (Y & HY & Hin).
  apply list_elem_of_fmap in HY as (s & -> & Hs).
  exists s. split; [done|]. intros Hdisj. by apply (Hdisj key).
Qed.

Lemma elem_of_names_of (entries : list Entity) (name : string) :
  name ∈ names_of entries ↔ ∃ s, s ∈ entries ∧ ent_name s = name.
Proof.
  unfold names_of. rewrite elem_of_list_to_set, list_elem_of_fmap.
  split; intros (s & ? & ?); by exists s.
Qed.

(** A list is returned as it is exactly when no two of its entries share
    a key or a name. *)
Lemma dedupe_entries_fixed (entries : list Entity) :
  dedupe_entries entries = entries
  ↔ pairwise (λ a b, entity_addrs a ## entity_addrs b ∧ ent_name a ≠ ent_name b)
      entries.
Proof.
  split.
  - intros <-. apply dedupe_entries_pairwise.
  - induction entries as [|entry entries IH] using rev_ind; [done|].
    intros [Hentries Hentry]%pairwise_snoc_inv.
    rewrite dedupe_entries_snoc, entity_rejected_spec, (IH Hentries).
    rewrite bool_decide_eq_true_2; [done|]. split.
    + destruct (decide (entity_addrs entry ## keys_of entries)) as [|Hnot]; [done|].
      apply not_disjoint_keys_of in Hnot as (s & Hs & Hnot).
      exfalso. apply Hnot. symmetry. by apply Hentry.
    + intros (s & Hs & Hname)%elem_of_names_of. by apply (Hentry s Hs).
Qed.

(** Every entry is kept, or shares a key or its name with an entry that
    is kept. *)
Lemma dedupe_entries_covered (entries : list Entity) (entry : Entity) :
  entry ∈ entries →
  entry ∈ dedupe_entries entries
  ∨ ∃ s, s ∈ dedupe_entries entries
         ∧ (¬ entity_addrs entry ## entity_addrs s ∨ ent_name entry = ent_name s).
Proof.
  induction entries as [|x entries IH] using rev_ind;
    [intros Hin; by apply elem_of_nil in Hin|].
  rewrite dedupe_entries_snoc.
  intros [Hin|Heq%list_elem_of_singleton]%elem_of_app.
  - destruct (IH Hin) as [Hkept|(s & Hs & Hcollide)].
    + left. apply elem_of_app. by left.
    + right. exists s. split; [|done]. apply elem_of_app. by left.
  - subst x. rewrite entity_rejected_spec.
    case_bool_decide as Hacc; simpl.
    + left. apply elem_of_app. right. by apply list_elem_of_singleton.
    + right. rewrite app_nil_r.
      destruct (decide (entity_addrs entry ## keys_of (dedupe_entries entries)))
        as [Hdisj|Hnot].
      * destruct (decide (ent_name entry ∈ names_of (dedupe_entries entries)))
          as [Hname|Hname]; [|tauto].
        apply elem_of_names_of in Hname as (s & Hs & Hname).
        exists s. split; [done|]. by right.
      * apply not_disjoint_keys_of in Hnot as (s & Hs & Hnot).
        exists s. split; [done|]. by left.
Qed.

Lemma pairwise_two {A : Type} (R : A → A → Prop) (a b : A) :
  pairwise R [a; b] ↔ R a b.
Proof.
  split.
  - intros Hp. by apply (Hp 0%nat 1%nat a b); [lia|..].
  - intros Hab. apply (pairwise_snoc R [a] b).
    + apply (pairwise_snoc R [] a); [apply pairwise_nil|].
      intros x Hx. by apply elem_of_nil in Hx.
    + by intros x ->%list_elem_of_singleton.
Qed.

Lemma dedupe_entries_single (entry : Entity) : dedupe_entries [entry] = [entry].
Proof.
  apply dedupe_entries_fixed. apply (pairwise_snoc _ [] entry); [apply pairwise_nil|].
  intros x Hx. by apply elem_of_nil in Hx.
Qed.

Lemma entity_addr_in_addrs (entry : Entity) : entity_addr entry ∈ entity_addrs entry.
Proof.
  unfold entity_addrs. rewrite !elem_of_union, elem_of_singleton. by left; left; left.
Qed.

(** Of two entries with one primary key the second is removed. *)
Lemma dedupe_entries_same_addr (a b : Entity) :
  entity_addr a = entity_addr b → dedupe_entries [a; b] = [a].
Proof.
  intros Heq. change [a; b] with ([a] ++ [b]).
  rewrite dedupe_entries_snoc, entity_rejected_spec, dedupe_entries_single.
  rewrite bool_decide_eq_false_2; [done|]. intros [Hdisj _].
  apply (Hdisj (entity_addr b)); [apply entity_addr_in_addrs|].
  apply (keys_of_elem [a] a); [by left|]. rewrite <- Heq. apply entity_addr_in_addrs.
Qed.

Section entity_extras.
Context `{Const}.

(** X15: the entity resolver returns a configuration as it is exactly
    when, in every list under a key of the platforms, no two entries share
    an address key or a name. *)
Theorem duplicate_entity_validator_fixed (config : list Hub) :
  duplicate_entity_validator config = config
  ↔ ∀ (hub : Hub) (key : string) (entries : list Entity),
      hub ∈ config → key ∈ PLATFORMS.*2 → hub_entities hub !! key = Some entries →
      pairwise (λ a b, entity_addrs a ## entity_addrs b ∧ ent_name a ≠ ent_name b)
        entries.
Proof.
  split.
  - intros Heq hub key entries [i Hi]%list_elem_of_lookup_1 Hkey Hlookup.
    apply (f_equal (λ config, config !! i)) in Heq.
    rewrite duplicate_entity_validator_lookup, Hi in Heq. simpl in Heq.
    injection Heq as Heq.
    apply (f_equal (λ hub, hub_entities hub !! key)) in Heq.
    rewrite dedupe_platforms_lookup, decide_True, Hlookup in Heq by done.
    simpl in Heq. injection Heq as Heq. by apply dedupe_entries_fixed.
  - intros Hdistinct. apply list_eq. intros i.
    rewrite duplicate_entity_validator_lookup.
    destruct (config !! i) as [hub|] eqn:Hi; [|done]. simpl. f_equal.
    destruct (dedupe_platforms_fields PLATFORMS hub) as (? & ? & ? & ? & ?).
    apply hub_eq; try done. apply map_eq. intros key.
    rewrite dedupe_platforms_lookup. case_decide as Hkey; [|done].
    destruct (hub_entities hub !! key) as [entries|] eqn:Hlookup; [|done].
    simpl. f_equal. apply dedupe_entries_fixed.
    apply (Hdistinct hub key); [|done..]. by eapply list_elem_of_lookup_2.
Qed.

(** X16: no entry is removed without a reason that is still there: every
    entry of a list under a key of the platforms is in the list that comes
    back, or shares an address key or its name with an entry of it. *)
Theorem duplicate_entity_validator_covered (config : list Hub) (i : nat)
    (hub : Hub) (key : string) (entries : list Entity) (entry : Entity) :
  config !! i = Some hub →
  key ∈ PLATFORMS.*2 →
  hub_entities hub !! key = Some entries →
  entry ∈ entries →
  ∃ hub' entries',
    duplicate_entity_validator config !! i = Some hub'
    ∧ hub_entities hub' !! key = Some entries'
    ∧ (entry ∈ entries'
       ∨ ∃ s, s ∈ entries'
              ∧ (¬ entity_addrs entry ## entity_addrs s
                 ∨ ent_name entry = ent_name s)).
Proof.
  intros Hi Hkey Hlookup Hin.
  exists (foldl dedupe_platform hub PLATFORMS), (dedupe_entries entries).
  rewrite duplicate_entity_validator_lookup, Hi. split; [done|].
  rewrite dedupe_platforms_lookup, decide_True, Hlookup by done.
  split; [done|]. by apply dedupe_entries_covered.
Qed.

End entity_extras.

(** X17: two entries with different names that name one register, with
    the same qualifiers and no nested register, are both kept exactly when
    their device indices differ. *)
Theorem dedupe_entries_device_index (a b : Entity) :
  ent_address a = ent_address b →
  ent_input_type a = ent_input_type b →
  ent_write_type a = ent_write_type b →
  ent_command_on a = ent_command_on b →
  ent_command_off a = ent_command_off b →
  ent_target_temp a = None → ent_hvac_mode_register a = None →
  ent_fan_mode_register a = None →
  ent_target_temp b = None → ent_hvac_mode_register b = None →
  ent_fan_mode_register b = None →
  ent_name a ≠ ent_name b →
  (dedupe_entries [a; b] = [a; b] ↔ entity_inx a ≠ entity_inx b)
  ∧ (dedupe_entries [a; b] = [a] ↔ entity_inx a = entity_inx b).
Proof.
  intros Haddress Hinput Hwrite Hon Hoff Ht1 Hh1 Hf1 Ht2 Hh2 Hf2 Hname.
  assert (∃ prefix,
            entity_addr a = prefix +:+ "_" +:+ str_int (entity_inx a)
            ∧ entity_addr b = prefix +:+ "_" +:+ str_int (entity_inx b))
    as (prefix & Ha & Hb).
  { unfold entity_addr. rewrite Haddress, Hinput, Hwrite, Hon, Hoff. by eexists. }
  assert (entity_addr a = entity_addr b ↔ entity_inx a = entity_inx b) as Hkey.
  { rewrite Ha, Hb. split; [|by intros ->]. intros Heq.
    apply String.app_inj in Heq. apply (String.app_inj "_") in Heq.
    by apply str_int_inj. }
  assert (dedupe_entries [a; b] = [a; b] ↔ entity_addr a ≠ entity_addr b) as Hkept.
  { rewrite dedupe_entries_fixed, pairwise_two. unfold entity_addrs.
    rewrite Ht1, Hh1, Hf1, Ht2, Hh2, Hf2. simpl.
    rewrite !union_empty_r_L, disjoint_singleton_l, not_elem_of_singleton. tauto. }
  split.
  - rewrite Hkept. by rewrite Hkey.
  - split.
    + intros Hone.
      destruct (decide (entity_inx a = entity_inx b)) as [|Hne]; [done|].
      assert (entity_addr a ≠ entity_addr b) as Hd by (by rewrite Hkey).
      apply Hkept in Hd. congruence.
    + intros Hinx. apply dedupe_entries_same_addr. by apply Hkey.
Qed.

(** X18: the primary key does not tell every pair of registers apart, and
    of two entries with one primary key the second is removed. The write
    type is not part of the key when there is an input type, the key of an
    entry with a command-on value only is that of an entry with the same
    value as command-off only, and a slave of 0 stands for no slave: the
    device address is taken then, or 0. *)
Theorem entity_addr_collisions :
  (∀ a b : Entity, entity_addr a = entity_addr b → dedupe_entries [a; b] = [a])
  ∧ (∀ (a b : Entity) (t : string),
       ent_address a = ent_address b →
       ent_input_type a = Some t → ent_input_type b = Some t →
       ent_command_on a = ent_command_on b →
       ent_command_off a = ent_command_off b →
       entity_inx a = entity_inx b →
       entity_addr a = entity_addr b)
  ∧ (∀ (a b : Entity) (c : Z),
       ent_address a = ent_address b →
       ent_input_type a = ent_input_type b →
       ent_write_type a = ent_write_type b →
       ent_command_on a = Some c → ent_command_off a = None →
       ent_command_on b = None → ent_command_off b = Some c →
       entity_inx a = entity_inx b →
       entity_addr a = entity_addr b)
  ∧ (∀ entry : Entity,
       ent_slave entry = None ∨ ent_slave entry = Some 0 →
       entity_inx entry = default 0 (ent_device_address entry)).
Proof.
  split_and!.
  - apply dedupe_entries_same_addr.
  - intros a b t Haddress Ha Hb Hon Hoff Hinx. unfold entity_addr.
    by rewrite Haddress, Ha, Hb, Hon, Hoff, Hinx.
  - intros a b c Haddress Hinput Hwrite Hona Hoffa Honb Hoffb Hinx.
    unfold entity_addr.
    by rewrite Haddress, Hinput, Hwrite, Hona, Hoffa, Honb, Hoffb, Hinx.
  - intros entry [Hslave|Hslave]; unfold entity_inx; by rewrite Hslave.
Qed.

(** X15 on a hub with two sensors at two addresses. *)
Lemma duplicate_entity_validator_fixed_witness :
  pairwise (λ a b, entity_addrs a ## entity_addrs b ∧ ent_name a ≠ ent_name b)
    [example_entity "x" 1 None; example_entity "y" 2 None].
Proof.
  apply (proj1 (@duplicate_entity_validator_fixed example_const
                  [example_hub "hub" "host" 502 None
                     [example_entity "x" 1 None; example_entity "y" 2 None]])
           ltac:(by vm_compute)
           (example_hub "hub" "host" 502 None
              [example_entity "x" 1 None; example_entity "y" 2 None])
           "sensors").
  - by left.
  - apply (bool_decide_unpack _). by vm_compute.
  - reflexivity.
Defined.

(** X16 on the three sensors: the second, which is removed, shares its
    address key with the first. *)
Lemma duplicate_entity_validator_covered_witness :
  ∃ hub' entries',
    @duplicate_entity_validator example_const
       [example_hub "hub" "host" 502 None example_duplicates] !! 0%nat
    = Some hub'
    ∧ hub_entities hub' !! "sensors" = Some entries'
    ∧ (example_entity "y" 1 None ∈ entries'
       ∨ ∃ s, s ∈ entries'
              ∧ (¬ entity_addrs (example_entity "y" 1 None) ## entity_addrs s
                 ∨ ent_name (example_entity "y" 1 None) = ent_name s)).
Proof.
  apply (@duplicate_entity_validator_covered example_const
           [example_hub "hub" "host" 502 None example_duplicates] 0%nat
           (example_hub "hub" "host" 502 None example_duplicates) "sensors"
           example_duplicates (example_entity "y" 1 None) eq_refl).
  - apply (bool_decide_unpack _). by vm_compute.
  - reflexivity.
  - right. by left.
Defined.

(** X17 on two sensors at address 1 of the device 0. *)
Lemma dedupe_entries_device_index_witness :
  dedupe_entries [example_entity "x" 1 None; example_entity "y" 1 None]
  = [example_entity "x" 1 None].
Proof.
  apply (proj2 (dedupe_entries_device_index
                  (example_entity "x" 1 None) (example_entity "y" 1 None)
                  eq_refl eq_refl eq_refl eq_refl eq_refl eq_refl eq_refl eq_refl
                  eq_refl eq_refl eq_refl ltac:(discriminate))).
  reflexivity.
Defined.

(** X18 on two sensors at address 7. *)
Lemma entity_addr_collisions_witness :
  dedupe_entries [example_entity "x" 7 None; example_entity "y" 7 None]
  = [example_entity "x" 7 None].
Proof.
  apply (proj1 entity_addr_collisions
           (example_entity "x" 7 None) (example_entity "y" 7 None)).
  reflexivity.
Defined.

(** ** Duplicate resolver for hubs *)

Lemma sublist_length_eq {A : Type} (l1 l2 : list A) :
  l1 `sublist_of` l2 → length l1 = length l2 → l1 = l2.
Proof.
  induction 1 as [|x l1 l2 Hsub IH|x l1 l2 Hsub IH]; simpl; intros Hlen.
  - done.
  - f_equal. apply IH. lia.
  - apply sublist_length in Hsub. lia.
Qed.

Section hub_extras.
Context `{Const}.

(** Every hub is kept or warned of. *)
Lemma hub_count (config : list Hub) :
  (length (duplicate_modbus_validator config).1
   + length (duplicate_modbus_validator config).2 = length config)%nat.
Proof.
  induction config as [|hub config IH] using rev_ind; [done|].
  rewrite hub_survivors_snoc, hub_rejected_spec, hub_warnings_snoc, !length_app.
  destruct (duplicate_modbus_validator config) as [survivors warnings].
  simpl in *.
  case_bool_decide as Hrej; repeat case_decide; simpl; try lia; tauto.
Qed.

(** X19: the hub resolver logs one warning for each hub that it removes,
    and every warning names a hub of the list with its connection key or
    its name; so it logs nothing exactly when it removes nothing. *)
Theorem duplicate_modbus_validator_warnings (config : list Hub) :
  (length (duplicate_modbus_validator config).1
   + length (duplicate_modbus_validator config).2 = length config)%nat
  ∧ ((duplicate_modbus_validator config).2 = []
     ↔ (duplicate_modbus_validator config).1 = config)
  ∧ ∀ w, w ∈ (duplicate_modbus_validator config).2 →
         ∃ hub, hub ∈ config
                ∧ (w = Duplicate_host_port (get_hub_name hub) (hub_key hub)
                   ∨ w = Duplicate_name (get_hub_name hub)).
Proof.
  pose proof (hub_count config) as Hcount. split_and!.
  - exact Hcount.
  - split.
    + intros Hnil. rewrite Hnil in Hcount. cbn [length] in Hcount.
      apply sublist_length_eq; [apply hub_survivors_sublist|lia].
    + intros Hsame. rewrite Hsame in Hcount.
      apply length_zero_iff_nil. lia.
  - clear Hcount. induction config as [|hub config IH] using rev_ind.
    { intros w Hw. by apply elem_of_nil in Hw. }
    intros w. rewrite hub_warnings_snoc.
    intros [Hw|Hw]%elem_of_app.
    + destruct (IH w Hw) as (hub' & Hin & Hcase).
      exists hub'. split; [|done]. apply elem_of_app. by left.
    + exists hub. split; [apply elem_of_app; right; by left|].
      repeat case_decide.
      * apply list_elem_of_singleton in Hw. by left.
      * apply list_elem_of_singleton in Hw. by right.
      * by apply elem_of_nil in Hw.
Qed.

(** X20: the hub resolver returns a list as it is, without a warning,
    exactly when no two of its hubs share a connection key or a name. *)
Theorem duplicate_modbus_validator_fixed (config : list Hub) :
  duplicate_modbus_validator config = (config, [])
  ↔ pairwise (λ a b, hub_key a ≠ hub_key b ∧ get_hub_name a ≠ get_hub_name b)
      config.
Proof.
  split.
  - intros Heq. pose proof (hub_survivors_pairwise config) as Hp.
    by rewrite Heq in Hp.
  - induction config as [|hub config IH] using rev_ind; [done|].
    intros [Hconfig Hhub]%pairwise_snoc_inv. specialize (IH Hconfig).
    assert (¬ (hub_key hub ∈ hub_keys_of config
               ∨ get_hub_name hub ∈ hub_names_of config)) as Hnew.
    { unfold hub_keys_of, hub_names_of.
      rewrite !elem_of_list_to_set, !list_elem_of_fmap.
      intros [(a & Heq & Ha)|(a & Heq & Ha)];
        destruct (Hhub a Ha) as [Hk Hn]; congruence. }
    apply injective_projections.
    + rewrite hub_survivors_snoc, hub_rejected_spec, IH. simpl.
      by rewrite bool_decide_eq_false_2.
    + rewrite hub_warnings_snoc, IH. simpl.
      rewrite decide_False by tauto. by rewrite decide_False by tauto.
Qed.

(** X21: a hub without a name is called [DEFAULT_HUB], so a second hub
    without a name is removed for its name though its connection is
    another one, and so is a hub without a name after one that is named
    [DEFAULT_HUB]. *)
Theorem duplicate_modbus_validator_unnamed (h1 h2 : Hub) :
  hub_name h1 = None ∨ hub_name h1 = Some DEFAULT_HUB →
  hub_name h2 = None →
  hub_key h1 ≠ hub_key h2 →
  duplicate_modbus_validator [h1; h2] = ([h1], [Duplicate_name DEFAULT_HUB]).
Proof.
  intros Hn1 Hn2 Hkey.
  assert (get_hub_name h1 = DEFAULT_HUB) as Hname1.
  { unfold get_hub_name. by destruct Hn1 as [-> | ->]. }
  assert (get_hub_name h2 = DEFAULT_HUB) as Hname2.
  { unfold get_hub_name. by rewrite Hn2. }
  change [h1; h2] with ([h1] ++ [h2]) at 1. apply injective_projections.
  - rewrite (hub_survivors_snoc [h1] h2), hub_rejected_spec, hub_single.
    cbn [fst snd]. rewrite bool_decide_eq_true_2; [done|].
    right. apply hub_names_of_single. congruence.
  - rewrite (hub_warnings_snoc [h1] h2), hub_single. cbn [fst snd].
    rewrite decide_False by (rewrite hub_keys_of_single; congruence).
    rewrite decide_True by (apply hub_names_of_single; congruence).
    by rewrite Hname2.
Qed.

End hub_extras.

(** X19 on two network hubs of one host and one port. *)
Lemma duplicate_modbus_validator_warnings_witness :
  (length (@duplicate_modbus_validator example_const
             [example_hub "a" "host" 502 None [];
              example_hub "b" "host" 502 None []]).1
   + length (@duplicate_modbus_validator example_const
               [example_hub "a" "host" 502 None [];
                example_hub "b" "host" 502 None []]).2
   = 2)%nat.
Proof.
  exact (proj1 (@duplicate_modbus_validator_warnings example_const
                  [example_hub "a" "host" 502 None [];
                   example_hub "b" "host" 502 None []])).
Defined.

(** X20 on two network hubs of one host and two ports. *)
Lemma duplicate_modbus_validator_fixed_witness :
  @duplicate_modbus_validator example_const
     [example_hub "a" "host" 502 None []; example_hub "b" "host" 503 None []]
  = ([example_hub "a" "host" 502 None []; example_hub "b" "host" 503 None []], []).
Proof.
  apply (proj2 (@duplicate_modbus_validator_fixed example_const
                  [example_hub "a" "host" 502 None [];
                   example_hub "b" "host" 503 None []])).
  apply pairwise_two. split; discriminate.
Defined.

(** X21 on a hub named as the default and a hub without a name at
    another port. *)
Lemma duplicate_modbus_validator_unnamed_witness :
  @duplicate_modbus_validator example_const
     [example_hub "modbus_hub" "host" 502 None [];
      {| hub_name := None; hub_type := "tcp"; hub_host := "host";
         hub_port := S_int 503; hub_timeout := None; hub_entities := ∅ |}]
  = ([example_hub "modbus_hub" "host" 502 None []],
     [Duplicate_name "modbus_hub"]).
Proof.
  apply (@duplicate_modbus_validator_unnamed example_const
           (example_hub "modbus_hub" "host" 502 None [])
           {| hub_name := None; hub_type := "tcp"; hub_host := "host";
              hub_port := S_int 503; hub_timeout := None; hub_entities := ∅ |});
    [by right|reflexivity|discriminate].
Defined.

(** ** Duplicate resolver for mode values *)

Lemma values_of_snoc (items : list (string * Z)) (k : string) (v : Z) :
  values_of (items ++ [(k, v)]) = values_of items ∪ {[ v ]}.
Proof.
  unfold values_of. rewrite fmap_app, list_to_set_app_L. simpl.
  by rewrite union_empty_r_L.
Qed.

Lemma elem_of_values_of (items : list (string * Z)) (v : Z) :
  v ∈ values_of items ↔ v ∈ items.*2.
Proof. unfold values_of. apply elem_of_list_to_set. Qed.

(** The values that are left are the values that were there. *)
Lemma dedupe_fan_modes_values (items : list (string * Z)) :
  NoDup items.*1 → values_of (dedupe_fan_modes items) = values_of items.
Proof.
  induction items as [|[k v] items IH] using rev_ind; intros Hnodup; [done|].
  specialize (IH (NoDup_snoc_keys _ _ Hnodup)).
  rewrite dedupe_fan_modes_snoc by done.
  rewrite fan_state_values by by eapply NoDup_snoc_keys.
  rewrite IH, values_of_snoc.
  case_bool_decide as Hseen.
  - rewrite app_nil_r, IH, (comm_L (∪)). symmetry.
    apply subseteq_union_1_L. by apply singleton_subseteq_l.
  - by rewrite values_of_snoc, IH.
Qed.

(** An item is kept exactly when its value is the value of no item
    before it. *)
Lemma dedupe_fan_modes_first (items : list (string * Z)) (k : string) (v : Z) :
  NoDup (items ++ [(k, v)]).*1 →
  dedupe_fan_modes (items ++ [(k, v)])
  = dedupe_fan_modes items ++ (if decide (v ∈ items.*2) then [] else [(k, v)]).
Proof.
  intros Hnodup. rewrite dedupe_fan_modes_snoc by done.
  pose proof (NoDup_snoc_keys _ _ Hnodup) as Hitems.
  rewrite fan_state_values, dedupe_fan_modes_values by done.
  case_bool_decide as Hseen; case_decide as Hin; try done;
    rewrite elem_of_values_of in Hseen; tauto.
Qed.

Lemma dedupe_fan_modes_distinct (items : list (string * Z)) :
  NoDup items.*1 → NoDup (dedupe_fan_modes items).*2.
Proof.
  induction items as [|[k v] items IH] using rev_ind; intros Hnodup;
    [by constructor|].
  pose proof (NoDup_snoc_keys _ _ Hnodup) as Hitems.
  rewrite dedupe_fan_modes_snoc, fan_state_values by done.
  case_bool_decide as Hseen; [rewrite app_nil_r; by apply IH|].
  rewrite fmap_app. apply NoDup_app. split; [by apply IH|]. split.
  - intros x Hx ->%list_elem_of_singleton. by apply Hseen, elem_of_values_of.
  - apply NoDup_singleton.
Qed.

Lemma dedupe_fan_modes_fixed (items : list (string * Z)) :
  NoDup items.*1 → (dedupe_fan_modes items = items ↔ NoDup items.*2).
Proof.
  intros Hnodup. split.
  - intros <-. by apply dedupe_fan_modes_distinct.
  - induction items as [|[k v] items IH] using rev_ind; [done|].
    rewrite fmap_app. intros (Hvalues & Hfresh & _)%NoDup_app.
    rewrite dedupe_fan_modes_first by done.
    rewrite (IH (NoDup_snoc_keys _ _ Hnodup) Hvalues).
    rewrite decide_False; [done|]. intros Hin. apply (Hfresh v Hin). by left.
Qed.

(** X22: of the mode values the validator keeps a sublist, in which no
    value occurs twice and every value that was there still occurs; the
    other keys of the configuration are as they were. *)
Theorem duplicate_fan_mode_validator_values (config : FanConfig) :
  NoDup (conf_fan_mode_values config).*1 →
  conf_fan_mode_values (duplicate_fan_mode_validator config)
    `sublist_of` conf_fan_mode_values config
  ∧ NoDup (conf_fan_mode_values (duplicate_fan_mode_validator config)).*2
  ∧ values_of (conf_fan_mode_values (duplicate_fan_mode_validator config))
    = values_of (conf_fan_mode_values config)
  ∧ fan_other (duplicate_fan_mode_validator config) = fan_other config.
Proof.
  intros Hnodup. unfold duplicate_fan_mode_validator. simpl. split_and!.
  - by apply dedupe_fan_modes_sublist.
  - by apply dedupe_fan_modes_distinct.
  - by apply dedupe_fan_modes_values.
  - done.
Qed.

(** X23: the first item with a value wins: an item added at the end of
    the mode values is kept exactly when no item before it has its value,
    whether that item was kept or not. *)
Theorem duplicate_fan_mode_validator_first (config : FanConfig) (k : string) (v : Z) :
  NoDup (conf_fan_mode_values config ++ [(k, v)]).*1 →
  conf_fan_mode_values
    (duplicate_fan_mode_validator
       {| conf_fan_mode_values := conf_fan_mode_values config ++ [(k, v)];
          fan_other := fan_other config |})
  = conf_fan_mode_values (duplicate_fan_mode_validator config)
    ++ (if decide (v ∈ (conf_fan_mode_values config).*2) then [] else [(k, v)]).
Proof.
  intros Hnodup. unfold duplicate_fan_mode_validator. simpl.
  by apply dedupe_fan_modes_first.
Qed.

(** X24: the validator returns a configuration as it is exactly when no
    two of its mode values are equal. *)
Theorem duplicate_fan_mode_validator_fixed (config : FanConfig) :
  NoDup (conf_fan_mode_values config).*1 →
  (duplicate_fan_mode_validator config = config
   ↔ NoDup (conf_fan_mode_values config).*2).
Proof.
  intros Hnodup. rewrite <- (dedupe_fan_modes_fixed _ Hnodup).
  unfold duplicate_fan_mode_validator. destruct config as [items other]. simpl.
  split; [by intros [= ->]|by intros ->].
Qed.

(** X25: no deletion of a resolver fails: the indices that the entity
    resolver and the hub resolver collect are in range when they are
    deleted, last first, and the keys that the mode-value resolver collects
    are present when they are deleted. *)
Theorem resolvers_deletions_succeed :
  (∀ entries : list Entity,
     deletable (reverse (e_errors (entity_state entries))) entries)
  ∧ (∀ (C : Const) (config : list Hub),
       deletable (reverse (h_errors (hub_state config))) config)
  ∧ (∀ items : list (string * Z),
       NoDup items.*1 →
       dict_deletable (reverse (f_errors (fan_state items))) items).
Proof.
  split_and!.
  - apply entity_deletions_in_range.
  - intros C. apply hub_deletions_in_range.
  - apply fan_deletions_found.
Qed.

(** X22 on the example: the keys are distinct and the values that are
    left are 1 and 2. *)
Lemma duplicate_fan_mode_validator_values_witness :
  NoDup (conf_fan_mode_values example_fan_config).*1
  ∧ NoDup (conf_fan_mode_values (duplicate_fan_mode_validator example_fan_config)).*2.
Proof.
  assert (NoDup (conf_fan_mode_values example_fan_config).*1) as Hnodup.
  { apply (bool_decide_unpack _). by vm_compute. }
  split; [exact Hnodup|].
  exact (proj1 (proj2 (duplicate_fan_mode_validator_values example_fan_config
                         Hnodup))).
Defined.

(** X23 on the example with a fourth item of the value 2. *)
Lemma duplicate_fan_mode_validator_first_witness :
  conf_fan_mode_values
    (duplicate_fan_mode_validator
       {| conf_fan_mode_values :=
            conf_fan_mode_values example_fan_config ++ [("top", 2)];
          fan_other := fan_other example_fan_config |})
  = conf_fan_mode_values (duplicate_fan_mode_validator example_fan_config).
Proof.
  rewrite (duplicate_fan_mode_validator_first example_fan_config "top" 2).
  - apply app_nil_r.
  - apply (bool_decide_unpack _). by vm_compute.
Defined.

(** X24 on two mode values 1 and 2. *)
Lemma duplicate_fan_mode_validator_fixed_witness :
  duplicate_fan_mode_validator
    {| conf_fan_mode_values := [("low", 1); ("high", 2)]; fan_other := ∅ |}
  = {| conf_fan_mode_values := [("low", 1); ("high", 2)]; fan_other := ∅ |}.
Proof.
  apply (proj2 (duplicate_fan_mode_validator_fixed
                  {| conf_fan_mode_values := [("low", 1); ("high", 2)];
                     fan_other := ∅ |}
                  ltac:(apply (bool_decide_unpack _); by vm_compute))).
  apply (bool_decide_unpack _). by vm_compute.
Defined.

(** X25 on the mode values of the example. *)
Lemma resolvers_deletions_succeed_witness :
  dict_deletable
    (reverse (f_errors (fan_state (conf_fan_mode_values example_fan_config))))
    (conf_fan_mode_values example_fan_config).
Proof.
  apply (proj2 (proj2 resolvers_deletions_succeed)).
  apply (bool_decide_unpack _). by vm_compute.
Defined.

(** ** Register validator: strings *)

Section struct_validator_strings.
Context `{Const}.

(** X26: a validated STRING declaration had a count, no structure and no
    slave count; its count is returned as it was given, and its structure
    is [">s"] whatever the count. *)
Theorem struct_validator_string (config config' : Config) :
  struct_validator config = Ok config' →
  resolve_data_type (conf_data_type config) = STRING →
  conf_structure config = None
  ∧ conf_slave_count config = None
  ∧ conf_virtual_count config = None
  ∧ conf_structure config' = Some ">s"
  ∧ ∃ n, conf_count config = Some n ∧ conf_count config' = Some n.
Proof.
  intros Hv Hdt.
  destruct (legality_checks config) as [[]|e'] eqn:Hlegal;
    [|by rewrite (struct_validator_legality _ _ Hlegal) in Hv].
  pose proof Hlegal as Hp. unfold legality_checks in Hp.
  destruct (parameter_checks config) as [[]|] eqn:Hparm; [|done].
  apply parameter_checks_ok in Hparm as (Hcount & Hstructure & Hslave).
  unfold parameter_violation in *. rewrite Hdt in Hcount, Hstructure, Hslave.
  simpl in Hcount, Hstructure, Hslave.
  unfold struct_validator in Hv. rewrite Hlegal, Hdt in Hv. simpl in Hv.
  assert (get_slave_count config = None) as Hnone.
  { destruct (get_slave_count config); [exfalso; apply Hslave; by right|done]. }
  rewrite Hnone in Hv. injection Hv as <-. simpl.
  unfold get_slave_count in Hnone.
  destruct (conf_slave_count config); [done|].
  destruct (conf_structure config); [exfalso; apply Hstructure; by right|].
  destruct (conf_count config) as [n|]; [|exfalso; apply Hcount; by left].
  split_and!; try done. by exists n.
Qed.

End struct_validator_strings.

(** X26 on a STRING register of 8 registers. *)
Lemma struct_validator_string_witness :
  @struct_validator example_const
     (example_register (Member STRING) (Some 8) None None None)
  = Ok (example_register (Member STRING) (Some 8) (Some ">s") None None)
  ∧ conf_structure
      (example_register (Member STRING) (Some 8) (Some ">s") None None)
    = Some ">s".
Proof.
  assert (@struct_validator example_const
            (example_register (Member STRING) (Some 8) None None None)
          = Ok (example_register (Member STRING) (Some 8) (Some ">s") None None))
    as Hv by reflexivity.
  split; [exact Hv|].
  exact (proj1 (proj2 (proj2 (proj2
           (@struct_validator_string example_const _ _ Hv eq_refl))))).
Defined.
